(** * Signaling relay: rooms, admission, relay, cleanup and rate limiting

    A shallow embedding of the two signaling servers of the repository,
    [src/server-deno.js] (the Deno server) and the Node server built on
    express and [ws].  Both keep a registry [rooms] of rooms with one
    [sender] and one [receiver] slot, annotate every socket with
    [roomId] and [role], and limit the message rate per socket.  The two
    files share [touchRoom], [getRoom], [send], [cleanupSocket] and the
    join branch; they differ in the texts of their error messages and in
    the relay branch ([offer], [answer], [ice]).

    Handlers are synchronous, so a handler run is one function from the
    state to the next state and the list of transport calls it makes.  The
    state holds the [rooms] map, the sockets with their annotations and
    [readyState], and the [rateLimit] map.  A run reads [Date.now()] as one
    value [t].  The Node server closes a connection whose path is not [/ws]
    before any handler is attached; such sockets never produce an event. *)

From Stdlib Require Import ZArith.
From stdpp Require Import gmap strings list fin_maps.

Local Open Scope Z_scope.

(** ** JavaScript values seen by the handlers *)

(** The fields of a parsed message are arbitrary JSON values.  The handlers
    test them for truthiness, compare them with [===] and use them as [Map]
    keys.  A number is represented by an integer code, [0] being the falsy
    one (JSON text denotes no NaN); an array or object is represented by
    its reference, since [===] and [Map] compare those by identity. *)
Inductive value : Type :=
| VUndefined
| VNull
| VBool (b : bool)
| VNumber (n : Z)
| VString (s : string)
| VObject (ref : nat).

#[global] Instance value_eq_dec : EqDecision value.
Proof. solve_decision. Defined.

Definition value_to_sum (v : value) : unit + unit + bool + Z + string + nat :=
  match v with
  | VUndefined => inl (inl (inl (inl (inl tt))))
  | VNull => inl (inl (inl (inl (inr tt))))
  | VBool b => inl (inl (inl (inr b)))
  | VNumber n => inl (inl (inr n))
  | VString s => inl (inr s)
  | VObject r => inr r
  end.

Definition value_of_sum (x : unit + unit + bool + Z + string + nat) : value :=
  match x with
  | inl (inl (inl (inl (inl _)))) => VUndefined
  | inl (inl (inl (inl (inr _)))) => VNull
  | inl (inl (inl (inr b))) => VBool b
  | inl (inl (inr n)) => VNumber n
  | inl (inr s) => VString s
  | inr r => VObject r
  end.

#[global] Instance value_countable : Countable value.
Proof.
  apply (inj_countable' value_to_sum value_of_sum).
  intros []; reflexivity.
Defined.

(** [Boolean(v)], the test behind [!v], [v && ...] and [filter(Boolean)]. *)
Definition truthy (v : value) : bool :=
  match v with
  | VUndefined | VNull => false
  | VBool b => b
  | VNumber n => negb (n =? 0)
  | VString s => negb (String.eqb s "")
  | VObject _ => true
  end.

(** [a === b] on values. *)
Definition strict_eq (a b : value) : bool := bool_decide (a = b).

(** ** Data model *)

(** [WebSocket.readyState]; [CONNECTING] never reaches a handler. *)
Inductive ready_state : Type := OPEN | CLOSING | CLOSED.

#[global] Instance ready_state_eq_dec : EqDecision ready_state.
Proof. solve_decision. Defined.

(** A socket as the handlers see it: the two properties [ws.roomId] and
    [ws.role] the join branch attaches, and the transport's [readyState]. *)
Record socket : Type := Socket {
  ws_roomId : value;
  ws_role : value;
  ws_readyState : ready_state
}.

(** A room object [{ sender, receiver, token, touchedAt }]; a slot is
    [null] ([None]) or a socket reference. *)
Record room : Type := Room {
  sender : option nat;
  receiver : option nat;
  token : value;
  touchedAt : Z
}.

#[global] Instance socket_eq_dec : EqDecision socket.
Proof. solve_decision. Defined.

#[global] Instance room_eq_dec : EqDecision room.
Proof. solve_decision. Defined.

(** The server: the [rooms] map, the sockets with their annotations, and
    the [rateLimit] weak map of timestamp arrays. *)
Record state : Type := State {
  rooms : gmap value room;
  sockets : gmap nat socket;
  rateLimit : gmap nat (list Z)
}.

Definition set_rooms (r : gmap value room) (st : state) : state :=
  State r (sockets st) (rateLimit st).
Definition set_sockets (s : gmap nat socket) (st : state) : state :=
  State (rooms st) s (rateLimit st).
Definition set_rateLimit (r : gmap nat (list Z)) (st : state) : state :=
  State (rooms st) (sockets st) r.

Definition set_sender (x : option nat) (r : room) : room :=
  Room x (receiver r) (token r) (touchedAt r).
Definition set_receiver (x : option nat) (r : room) : room :=
  Room (sender r) x (token r) (touchedAt r).
Definition set_token (x : value) (r : room) : room :=
  Room (sender r) (receiver r) x (touchedAt r).
Definition set_touchedAt (x : Z) (r : room) : room :=
  Room (sender r) (receiver r) (token r) x.

(** A socket handed over by the transport and not annotated yet: open, with
    [roomId] and [role] undefined. *)
Definition new_socket : socket := Socket VUndefined VUndefined OPEN.

Definition get_socket (st : state) (ws : nat) : socket :=
  default new_socket (sockets st !! ws).

Definition put_socket (ws : nat) (s : socket) (st : state) : state :=
  set_sockets (<[ws := s]> (sockets st)) st.

Definition initial : state := State ∅ ∅ ∅.

(** ** Constants (the same in both files) *)

Definition MAX_PER_ROOM : nat := 2.
Definition MAX_MESSAGE_BYTES : Z := 64 * 1024.
Definition RATE_LIMIT_WINDOW_MS : Z := 10000.
Definition RATE_LIMIT_MAX : nat := 60.
Definition ROOM_TTL_MS : Z := 30 * 60 * 1000.

(** ** Messages and transport calls *)

(** The envelopes the servers send. *)
Inductive envelope : Type :=
| EError (message : string)
| EJoined (roomId role : value)
| EReady
| EPeerLeft
| ERelay (type data : value).

(** The calls a handler makes on the transport: [ws.send(JSON.stringify m)]
    and [ws.close(code, reason)]. *)
Inductive effect : Type :=
| WsSend (ws : nat) (m : envelope)
| WsClose (ws : nat) (code : option Z) (reason : option string).

#[global] Instance envelope_eq_dec : EqDecision envelope.
Proof. solve_decision. Defined.

#[global] Instance effect_eq_dec : EqDecision effect.
Proof. solve_decision. Defined.

(** The two servers. *)
Inductive server : Type := Deno | Node.

(** ** Operations shared by both files *)

(** [touchRoom(id)]; [t] is the reading of [Date.now()]. *)
Definition touchRoom (t : Z) (id : value) (st : state) : state :=
  match rooms st !! id with
  | Some r => set_rooms (<[id := set_touchedAt t r]> (rooms st)) st
  | None => st
  end.

(** [getRoom(id)]: the room, created empty when the id is unknown. *)
Definition getRoom (t : Z) (id : value) (st : state) : room * state :=
  match rooms st !! id with
  | Some r => (r, st)
  | None =>
      let r := Room None None VNull t in
      (r, set_rooms (<[id := r]> (rooms st)) st)
  end.

(** [send(ws, msg)]: nothing happens for [null] or a socket that is not
    open. *)
Definition send (st : state) (ws : option nat) (msg : envelope) : list effect :=
  match ws with
  | Some w =>
      match ws_readyState (get_socket st w) with
      | OPEN => [WsSend w msg]
      | _ => []
      end
  | None => []
  end.

(** [ws.close(code, reason)]: an open socket starts closing. *)
Definition close (ws : nat) (st : state) : state :=
  let s := get_socket st ws in
  match ws_readyState s with
  | OPEN => put_socket ws (Socket (ws_roomId s) (ws_role s) CLOSING) st
  | _ => st
  end.

(** [[room.sender, room.receiver].filter(Boolean).length] *)
Definition occupied (r : room) : nat :=
  length (filter (λ x : option nat, is_Some x) [sender r; receiver r]).

(** [cleanupSocket(ws)].  The writes to [room] land in the object the
    registry holds, so they are written back before [touchRoom] reads the
    registry again. *)
Definition cleanupSocket (t : Z) (ws : nat) (st : state) : state * list effect :=
  let s := get_socket st ws in
  if negb (truthy (ws_roomId s)) || negb (truthy (ws_role s)) then (st, [])
  else
    match rooms st !! ws_roomId s with
    | None => (st, [])
    | Some r =>
        let r1 :=
          if strict_eq (ws_role s) (VString "sender") && bool_decide (sender r = Some ws)
          then set_sender None r else r in
        let r2 :=
          if strict_eq (ws_role s) (VString "receiver") && bool_decide (receiver r1 = Some ws)
          then set_receiver None r1 else r1 in
        let st1 := set_rooms (<[ws_roomId s := r2]> (rooms st)) st in
        let peer :=
          if strict_eq (ws_role s) (VString "sender") then receiver r2 else sender r2 in
        let out := send st1 peer EPeerLeft in
        let st2 := touchRoom t (ws_roomId s) st1 in
        if bool_decide (sender r2 = None) && bool_decide (receiver r2 = None)
        then (set_rooms (delete (ws_roomId s) (rooms st2)) st2, out)
        else (st2, out)
    end.

(** ** Inbound messages *)

(** The fields the handlers read from a parsed message; a missing field is
    [VUndefined]. *)
Record message : Type := Message {
  m_type : value;
  m_roomId : value;
  m_token : value;
  m_role : value;
  m_data : value
}.

(** The outcome of [JSON.parse]: a [SyntaxError], the value [null] (on which
    [const { type } = msg] throws), or a value whose properties can be
    read. *)
Inductive parsed : Type :=
| ParseError
| ParsedNull
| Parsed (m : message).

(** A frame: text or binary, its length in bytes, and what [JSON.parse]
    makes of its text. *)
Record payload : Type := Payload {
  isText : bool;
  bytes : Z;
  parse : parsed
}.

(** ** The texts in which the two files differ *)

Definition text_bad_token (v : server) : string :=
  match v with Deno => "bad token" | Node => "Invalid token" end.
Definition text_sender_exists (v : server) : string :=
  match v with Deno => "sender exists" | Node => "Sender already present" end.
Definition text_receiver_exists (v : server) : string :=
  match v with Deno => "receiver exists" | Node => "Receiver already present" end.
Definition text_room_full (v : server) : string :=
  match v with Deno => "room full" | Node => "Room full" end.
Definition text_unknown_type (v : server) : string :=
  match v with Deno => "unknown type" | Node => "Unknown message type" end.
Definition text_too_big (v : server) : string :=
  match v with Deno => "too big" | Node => "Message too large" end.
Definition text_rate_limit (v : server) : string :=
  match v with Deno => "rate limit" | Node => "Rate limit exceeded" end.
Definition text_bad_json (v : server) : string :=
  match v with Deno => "bad json" | Node => "Invalid JSON" end.

(** The text of the error a join gets from a room whose two slots are held
    by other sockets: the test of the requested slot comes first, so the
    room-full test decides only for a role that names no slot. *)
Definition full_room_text (v : server) (role : value) : string :=
  if strict_eq role (VString "sender") then text_sender_exists v
  else if strict_eq role (VString "receiver") then text_receiver_exists v
  else text_room_full v.

(** The error a socket without annotations gets for [offer], [answer] or
    [ice]: the Node server tests the annotations, the Deno server only
    finds no room under [undefined]. *)
Definition text_unjoined (v : server) : string :=
  match v with Deno => "no room" | Node => "Join first" end.

(** ** Rate limiter *)

(** [enforceRate(ws)] / [enforceRateLimit(ws)] *)
Definition enforceRate (v : server) (t : Z) (ws : nat) (st : state)
  : bool * state * list effect :=
  let windowStart := t - RATE_LIMIT_WINDOW_MS in
  let arr := default [] (rateLimit st !! ws) in
  let next := filter (λ x, windowStart ≤ x) arr ++ [t] in
  let st1 := set_rateLimit (<[ws := next]> (rateLimit st)) st in
  if bool_decide (RATE_LIMIT_MAX < length next)%nat
  then (false, close ws st1, [WsClose ws (Some 1013) (Some (text_rate_limit v))])
  else (true, st1, []).

(** ** The join branch (the same in both files up to the error texts) *)

Definition handleJoin (v : server) (t : Z) (ws : nat) (msg : message) (st : state)
  : state * list effect :=
  let roomId := m_roomId msg in
  let tok := m_token msg in
  let role := m_role msg in
  if negb (truthy roomId) || negb (truthy tok) || negb (truthy role) then
    (st, send st (Some ws) (EError "roomId, token, role required"))
  else
    let '(r, st1) := getRoom t roomId st in
    if truthy (token r) && negb (strict_eq (token r) tok) then
      (st1, send st1 (Some ws) (EError (text_bad_token v)))
    else
      let r1 := if negb (truthy (token r)) then set_token tok r else r in
      let st2 := set_rooms (<[roomId := r1]> (rooms st1)) st1 in
      if strict_eq role (VString "sender") && bool_decide (is_Some (sender r1))
         && negb (bool_decide (sender r1 = Some ws)) then
        (st2, send st2 (Some ws) (EError (text_sender_exists v)))
      else if strict_eq role (VString "receiver") && bool_decide (is_Some (receiver r1))
         && negb (bool_decide (receiver r1 = Some ws)) then
        (st2, send st2 (Some ws) (EError (text_receiver_exists v)))
      else if bool_decide (MAX_PER_ROOM ≤ occupied r1)%nat
         && negb (bool_decide (Some ws ∈ [sender r1; receiver r1])) then
        (st2, send st2 (Some ws) (EError (text_room_full v)))
      else
        let s := get_socket st2 ws in
        let st3 := put_socket ws (Socket roomId role (ws_readyState s)) st2 in
        let r2 := if strict_eq role (VString "sender") then set_sender (Some ws) r1 else r1 in
        let r3 := if strict_eq role (VString "receiver") then set_receiver (Some ws) r2 else r2 in
        let st4 := set_rooms (<[roomId := r3]> (rooms st3)) st3 in
        let st5 := touchRoom t roomId st4 in
        let joined := send st5 (Some ws) (EJoined roomId role) in
        let ready :=
          if bool_decide (is_Some (sender r3)) && bool_decide (is_Some (receiver r3))
          then send st5 (sender r3) EReady ++ send st5 (receiver r3) EReady
          else [] in
        (st5, joined ++ ready).

(** ** The relay branch, [offer], [answer] and [ice] *)

(** [src/server-deno.js]: no test of the socket's annotations and none of
    the peer; [send] drops the envelope when there is no open peer. *)
Definition handleRelayDeno (t : Z) (ws : nat) (msg : message) (st : state)
  : state * list effect :=
  let s := get_socket st ws in
  match rooms st !! ws_roomId s with
  | None => (st, send st (Some ws) (EError "no room"))
  | Some r =>
      let peer :=
        if strict_eq (ws_role s) (VString "sender") then receiver r else sender r in
      let st1 := touchRoom t (ws_roomId s) st in
      (st1, send st1 peer (ERelay (m_type msg) (m_data msg)))
  end.

(** The Node server. *)
Definition handleRelayNode (t : Z) (ws : nat) (msg : message) (st : state)
  : state * list effect :=
  let s := get_socket st ws in
  if negb (truthy (ws_roomId s)) || negb (truthy (ws_role s)) then
    (st, send st (Some ws) (EError "Join first"))
  else
    match rooms st !! ws_roomId s with
    | None => (st, send st (Some ws) (EError "Room missing"))
    | Some r =>
        let target :=
          if strict_eq (ws_role s) (VString "sender") then receiver r else sender r in
        match target with
        | Some p =>
            match ws_readyState (get_socket st p) with
            | OPEN =>
                let st1 := touchRoom t (ws_roomId s) st in
                (st1, send st1 target (ERelay (m_type msg) (m_data msg)))
            | _ => (st, send st (Some ws) (EError "Peer not connected"))
            end
        | None => (st, send st (Some ws) (EError "Peer not connected"))
        end
    end.

Definition handleRelay (v : server) : Z → nat → message → state → state * list effect :=
  match v with Deno => handleRelayDeno | Node => handleRelayNode end.

(** ** Dispatch on [type] *)

Definition is_relay_type (ty : value) : bool :=
  strict_eq ty (VString "offer") || strict_eq ty (VString "answer")
  || strict_eq ty (VString "ice").

Definition dispatch (v : server) (t : Z) (ws : nat) (msg : message) (st : state)
  : state * list effect :=
  if strict_eq (m_type msg) (VString "join") then handleJoin v t ws msg st
  else if is_relay_type (m_type msg) then handleRelay v t ws msg st
  else if strict_eq (m_type msg) (VString "leave") then cleanupSocket t ws st
  else (st, send st (Some ws) (EError (text_unknown_type v))).

(** ** The message handler *)

(** The Deno server measures text frames only; the Node server measures
    every frame. *)
Definition too_big (v : server) (p : payload) : bool :=
  match v with
  | Deno => isText p && bool_decide (MAX_MESSAGE_BYTES < bytes p)
  | Node => bool_decide (MAX_MESSAGE_BYTES < bytes p)
  end.

(** [JSON.parse(ev.data)] on the Deno server gets a binary frame as it is,
    which is no JSON text; the Node server decodes every frame. *)
Definition parse_frame (v : server) (p : payload) : parsed :=
  match v with
  | Deno => if isText p then parse p else ParseError
  | Node => parse p
  end.

(** [ws.onmessage] / [ws.on('message', ...)].  When [msg] is [null] the
    destructuring throws and the exception leaves the handler: the pair is
    then the state and the calls at the throw.  That the process ends there
    is told by [throws], [handle] and [serve] below. *)
Definition onmessage (v : server) (t : Z) (ws : nat) (p : payload) (st : state)
  : state * list effect :=
  if too_big v p then
    (close ws st, [WsClose ws (Some 1009) (Some (text_too_big v))])
  else
    let '(ok, st1, out) := enforceRate v t ws st in
    if negb ok then (st1, out)
    else
      match parse_frame v p with
      | ParseError => (close ws st1, [WsClose ws (Some 1003) (Some (text_bad_json v))])
      | ParsedNull => (st1, [])
      | Parsed msg => dispatch v t ws msg st1
      end.

(** ** The janitor *)

Definition close_slot (x : option nat) (acc : state * list effect)
  : state * list effect :=
  match x with
  | Some w => (close w acc.1, acc.2 ++ [WsClose w None None])
  | None => acc
  end.

(** The body of the loop in [cleanupStale()] / [cleanupStaleRooms()]:
    a stale room has its occupants closed and is deleted. *)
Definition sweep_body (cutoff : Z) (acc : state * list effect) (e : value * room)
  : state * list effect :=
  if bool_decide (touchedAt e.2 < cutoff) then
    let acc1 := close_slot (receiver e.2) (close_slot (sender e.2) acc) in
    (set_rooms (delete e.1 (rooms acc1.1)) acc1.1, acc1.2)
  else acc.

(** [cleanupStale()] / [cleanupStaleRooms()]: the loop over
    [rooms.entries()].  The model walks the registry in the key order of the
    map, the code in insertion order: the [close()] calls for different stale
    rooms can come in another order; the calls themselves and the state
    after the loop are the same. *)
Definition cleanupStale (t : Z) (st : state) : state * list effect :=
  foldl (sweep_body (t - ROOM_TTL_MS)) (st, []) (map_to_list (rooms st)).

(** ** The server as a transition system *)

(** What the transport and the timer hand to the server.  A socket has left
    [OPEN] when its [error] event fires and is [CLOSED] when its [close]
    event fires. *)
Inductive event : Type :=
| EvMessage (ws : nat) (p : payload)
| EvClose (ws : nat)
| EvError (ws : nat)
| EvSweep.

Definition mark (rs : ready_state) (ws : nat) (st : state) : state :=
  let s := get_socket st ws in
  put_socket ws (Socket (ws_roomId s) (ws_role s) rs) st.

(** One handler run; [t] is what [Date.now()] reads during the run. *)
Definition step (v : server) (t : Z) (ev : event) (st : state) : state * list effect :=
  match ev with
  | EvMessage ws p => onmessage v t ws p st
  | EvClose ws => cleanupSocket t ws (mark CLOSED ws st)
  | EvError ws => cleanupSocket t ws (close ws st)
  | EvSweep => cleanupStale t st
  end.

(** A run of the server over timed events, collecting the transport calls. *)
Fixpoint run (v : server) (tr : list (Z * event)) (st : state) : state * list effect :=
  match tr with
  | [] => (st, [])
  | (t, ev) :: tr' =>
      let '(st1, out1) := step v t ev st in
      let '(st2, out2) := run v tr' st1 in
      (st2, out1 ++ out2)
  end.

Definition reachable (v : server) (st : state) : Prop :=
  ∃ tr, (run v tr initial).1 = st.

(** ** Messages that reach the dispatcher *)

(** The timestamps kept for [ws], [rateLimit.get(ws) || []]. *)
Definition window (st : state) (ws : nat) : list Z :=
  default [] (rateLimit st !! ws).

(** The array [enforceRate] stores at time [t]. *)
Definition next_window (t : Z) (arr : list Z) : list Z :=
  filter (λ x, t - RATE_LIMIT_WINDOW_MS ≤ x) arr ++ [t].

(** The state after a rate check that passes: only the window of [ws] has
    advanced. *)
Definition rated (t : Z) (ws : nat) (st : state) : state :=
  set_rateLimit (<[ws := next_window t (window st ws)]> (rateLimit st)) st.

(** The frame [p] passes the size check and the rate check, and parses to
    [msg]. *)
Definition accepts (v : server) (t : Z) (ws : nat) (p : payload) (st : state)
    (msg : message) : Prop :=
  too_big v p = false ∧ (enforceRate v t ws st).1.1 = true
  ∧ parse_frame v p = Parsed msg.

(** [ws.readyState === WebSocket.OPEN] *)
Definition is_open (st : state) (ws : nat) : Prop :=
  ws_readyState (get_socket st ws) = OPEN.

(** [ws.roomId] and [ws.role]. *)
Definition binding (st : state) (ws : nat) : value * value :=
  (ws_roomId (get_socket st ws), ws_role (get_socket st ws)).

(** The slot a role names; no other role has one. *)
Definition slot (role : value) (r : room) : option nat :=
  if strict_eq role (VString "sender") then sender r
  else if strict_eq role (VString "receiver") then receiver r
  else None.

(** [ws] occupies the [role] slot of room [id]. *)
Definition holds (st : state) (ws : nat) (id role : value) : Prop :=
  ∃ r, rooms st !! id = Some r ∧ slot role r = Some ws.

(** The slot [cleanupSocket] and the relay branch read for the peer. *)
Definition peer_slot (role : value) (r : room) : option nat :=
  if strict_eq role (VString "sender") then receiver r else sender r.

(** ** Notions used in the statements and their proofs *)

(** A slot after a handler run is empty, as before, or holds [w]. *)
Definition slot_ok (w old new : option nat) : Prop :=
  new = None ∨ new = old ∨ new = w.

(** Every room of [m'] is a room of [m] or has a truthy id, and its slots
    are [slot_ok] with respect to the room of the same id in [m]. *)
Definition room_prov (w : option nat) (m m' : gmap value room) : Prop :=
  ∀ id r', m' !! id = Some r' →
    (is_Some (m !! id) ∨ truthy id = true)
    ∧ slot_ok w (m !! id ≫= sender) (sender r')
    ∧ slot_ok w (m !! id ≫= receiver) (receiver r').

(** The socket an event may put into a slot: the one a [join] arrives on. *)
Definition joiner (v : server) (ev : event) : option nat :=
  match ev with
  | EvMessage ws p =>
      match parse_frame v p with
      | Parsed m => if strict_eq (m_type m) (VString "join") then Some ws else None
      | _ => None
      end
  | _ => None
  end.

(** [ws] is in neither slot of room [id]. *)
Definition absent_from (m : gmap value room) (ws : nat) (id : value) : Prop :=
  ∀ r, m !! id = Some r → sender r ≠ Some ws ∧ receiver r ≠ Some ws.

(** No event of the trace is a join arriving on [ws]. *)
Definition no_join_by (v : server) (ws : nat) (tr : list (Z * event)) : Prop :=
  Forall (λ e, joiner v e.2 ≠ Some ws) tr.

(** The event is a frame on [ws] that reaches the rate check. *)
Definition rate_checked (v : server) (ws : nat) (ev : event) : bool :=
  match ev with
  | EvMessage w q => bool_decide (w = ws) && negb (too_big v q)
  | _ => false
  end.

(** The arrival times of the frames on [ws]. *)
Definition arrivals (ws : nat) (tr : list (Z * event)) : list Z :=
  omap (λ e, match e.2 with
             | EvMessage w _ => if decide (w = ws) then Some e.1 else None
             | _ => None
             end) tr.

(** Consecutive times are more than one window apart. *)
Fixpoint spaced (l : list Z) : Prop :=
  match l with
  | a :: l' =>
      match l' with
      | b :: _ => a + RATE_LIMIT_WINDOW_MS < b ∧ spaced l'
      | [] => True
      end
  | [] => True
  end.

(** The rate-checked frames of [ws] in the trace that arrived no more than
    one window before [T]. *)
Definition recent_frames (v : server) (ws : nat) (T : Z) (tr : list (Z * event))
  : list (Z * event) :=
  filter (λ e, rate_checked v ws e.2 = true ∧ T - RATE_LIMIT_WINDOW_MS ≤ e.1) tr.

(** The entries of the window of [ws] that a check at time [T] keeps. *)
Definition kept (T : Z) (st : state) (ws : nat) : list Z :=
  filter (λ x, T - RATE_LIMIT_WINDOW_MS ≤ x) (window st ws).

(** A slot after a handler run is empty or as before, unless it was empty
    before. *)
Definition slot_kept (old new : option nat) : Prop :=
  new = None ∨ new = old ∨ old = None.

(** ** Concrete frames and runs *)

Definition frame (m : message) : payload := Payload true 64 (Parsed m).

Definition join_msg (id tk ro : string) : message :=
  Message (VString "join") (VString id) (VString tk) (VString ro) VUndefined.

Definition signal_msg (ty : string) (d : value) : message :=
  Message (VString ty) VUndefined VUndefined VUndefined d.

Definition leave_msg : message :=
  Message (VString "leave") VUndefined VUndefined VUndefined VUndefined.

(** Socket 1 joins room r1 as sender. *)
Definition sender_joins : list (Z * event) :=
  [(0, EvMessage 1%nat (frame (join_msg "r1" "t" "sender")))].

(** Socket 1 joins room r1 as sender, then socket 2 as receiver. *)
Definition pair_joins : list (Z * event) :=
  sender_joins ++ [(1, EvMessage 2%nat (frame (join_msg "r1" "t" "receiver")))].

Definition sender_alone (v : server) : state := (run v sender_joins initial).1.
Definition paired (v : server) : state := (run v pair_joins initial).1.

(** Sixty frames on socket 1 at time 0. *)
Definition burst : list (Z * event) :=
  replicate 60 (0, EvMessage 1%nat (frame leave_msg)).

(** Frames on socket 1 every 10001 ms. *)
Definition slow : list (Z * event) :=
  [(0, EvMessage 1%nat (frame leave_msg)); (10001, EvMessage 1%nat (frame leave_msg));
   (20002, EvMessage 1%nat (frame leave_msg))].

(** ** Notions used in the further properties *)

(** The test of the janitor's loop, [room.touchedAt < cutoff]. *)
Definition stale (t : Z) (r : room) : Prop := touchedAt r < t - ROOM_TTL_MS.

#[global] Instance stale_dec t r : Decision (stale t r).
Proof. unfold stale. apply _. Defined.

(** [w] is in a slot of [r]. *)
Definition occupant (w : nat) (r : room) : Prop :=
  sender r = Some w ∨ receiver r = Some w.

(** The error a relay message gets when the room of the socket is gone. *)
Definition text_no_room (v : server) : string :=
  match v with Deno => "no room" | Node => "Room missing" end.

(** [if (!room.token) room.token = token] *)
Definition adopt_token (tok : value) (r : room) : room :=
  if negb (truthy (token r)) then set_token tok r else r.

(** [if (role === 'sender') room.sender = ws;
     if (role === 'receiver') room.receiver = ws] *)
Definition take_slot (role : value) (ws : nat) (r : room) : room :=
  let r2 := if strict_eq role (VString "sender") then set_sender (Some ws) r else r in
  if strict_eq role (VString "receiver") then set_receiver (Some ws) r2 else r2.

(** The room [getRoom] hands to the join branch. *)
Definition room_or_new (t : Z) (id : value) (st : state) : room :=
  default (Room None None VNull t) (rooms st !! id).

(** Socket 1 joins room r1 as sender and leaves again. *)
Definition sender_left (v : server) : state :=
  (run v (sender_joins ++ [(1, EvMessage 1%nat (frame leave_msg))]) initial).1.

(** The secret of a room of [m'] with respect to the room of the same id
    in [m]: unchanged, or adopted where there was none; a new room has
    one. *)
Definition token_kept (m m' : gmap value room) : Prop :=
  ∀ id r', m' !! id = Some r' →
    match m !! id with
    | Some r => token r' = token r ∨ (truthy (token r) = false ∧ truthy (token r') = true)
    | None => truthy (token r') = true
    end.

(** The one room a frame can change: the room a join names, or else the
    room the socket is bound to. *)
Definition target_room (v : server) (ws : nat) (p : payload) (st : state) : value :=
  match parse_frame v p with
  | Parsed m =>
      if strict_eq (m_type m) (VString "join") then m_roomId m
      else ws_roomId (get_socket st ws)
  | _ => ws_roomId (get_socket st ws)
  end.

(** [if (role === 'sender' && room.sender === ws) room.sender = null;
     if (role === 'receiver' && room.receiver === ws) room.receiver = null] *)
Definition vacate (role : value) (ws : nat) (r : room) : room :=
  let r1 :=
    if strict_eq role (VString "sender") && bool_decide (sender r = Some ws)
    then set_sender None r else r in
  if strict_eq role (VString "receiver") && bool_decide (receiver r1 = Some ws)
  then set_receiver None r1 else r1.

(** ** Handler runs that throw *)

(** The handler run throws: the frame passes the size check and the rate
    check and [JSON.parse] gives [null], on which [const { type } = msg],
    outside the [try], raises a TypeError.  Neither file catches it. *)
Definition throws (v : server) (t : Z) (ev : event) (st : state) : bool :=
  match ev with
  | EvMessage ws p =>
      negb (too_big v p) && (enforceRate v t ws st).1.1
      && match parse_frame v p with ParsedNull => true | _ => false end
  | _ => false
  end.

(** How a handler run ends: it returns, with the next state and the
    transport calls it made, or the uncaught exception ends the process, and
    with it the registry and every connection. *)
Inductive outcome : Type :=
| Returns (st : state) (out : list effect)
| Exits.

Definition handle (v : server) (t : Z) (ev : event) (st : state) : outcome :=
  if throws v t ev st then Exits
  else Returns (step v t ev st).1 (step v t ev st).2.

(** The server process over timed events: it stops at the first handler run
    that throws; [None] stands for the process that has exited.  [run] above
    goes through every event, so the runs of the process are among the runs
    of [run], cut at the throwing frame. *)
Fixpoint serve (v : server) (tr : list (Z * event)) (st : state)
  : option state * list effect :=
  match tr with
  | [] => (Some st, [])
  | (t, ev) :: tr' =>
      match handle v t ev st with
      | Exits => (None, [])
      | Returns st1 out1 =>
          let '(res, out2) := serve v tr' st1 in (res, out1 ++ out2)
      end
  end.

(** A text frame holding the JSON value [null]. *)
Definition null_frame : payload := Payload true 4 ParsedNull.


(** ** Basic facts *)

Arguments send : simpl never.
Arguments touchRoom : simpl never.
Arguments getRoom : simpl never.

Lemma enforceRate_ok v t ws st :
  (enforceRate v t ws st).1.1 = true →
  enforceRate v t ws st = (true, rated t ws st, []).
Proof.
  unfold enforceRate, rated, next_window, window.
  case_bool_decide; simpl; [discriminate | reflexivity].
Qed.

Lemma onmessage_accepts v t ws p st msg :
  accepts v t ws p st msg →
  onmessage v t ws p st = dispatch v t ws msg (rated t ws st).
Proof.
  intros (Hbig & Hrate & Hparse). unfold onmessage.
  rewrite Hbig, (enforceRate_ok _ _ _ _ Hrate). simpl. by rewrite Hparse.
Qed.

Lemma send_open st ws m :
  is_open st ws → send st (Some ws) m = [WsSend ws m].
Proof. unfold is_open, send. by intros ->. Qed.

Lemma strict_eq_true a b : strict_eq a b = true ↔ a = b.
Proof. unfold strict_eq. by rewrite bool_decide_eq_true. Qed.

Lemma strict_eq_false a b : strict_eq a b = false ↔ a ≠ b.
Proof. unfold strict_eq. by rewrite bool_decide_eq_false. Qed.

Lemma getRoom_known t id st r :
  rooms st !! id = Some r → getRoom t id st = (r, st).
Proof. unfold getRoom. by intros ->. Qed.

Lemma touchRoom_known t id st r :
  rooms st !! id = Some r →
  touchRoom t id st = set_rooms (<[id := set_touchedAt t r]> (rooms st)) st.
Proof. unfold touchRoom. by intros ->. Qed.

Lemma occupied_both r a b :
  sender r = Some a → receiver r = Some b → occupied r = 2%nat.
Proof. unfold occupied. by intros -> ->. Qed.

(** ** The pairing scenario, run on both servers *)

(** Socket 1 joins r1 as sender and socket 2 as receiver, both get [ready],
    an offer of socket 1 reaches socket 2, and when socket 2 disconnects
    socket 1 gets [peer-left]; room r1 stays with its sender. *)
Example pairing_scenario v :
  run v (pair_joins
         ++ [(2, EvMessage 1%nat (frame (signal_msg "offer" (VObject 7))));
             (3, EvClose 2%nat)]) initial
  = (State {[ VString "r1" := Room (Some 1%nat) None (VString "t") 3 ]}
           {[ 1%nat := Socket (VString "r1") (VString "sender") OPEN;
              2%nat := Socket (VString "r1") (VString "receiver") CLOSED ]}
           {[ 1%nat := [0; 2]; 2%nat := [1] ]},
     [WsSend 1%nat (EJoined (VString "r1") (VString "sender"));
      WsSend 2%nat (EJoined (VString "r1") (VString "receiver"));
      WsSend 1%nat EReady; WsSend 2%nat EReady;
      WsSend 2%nat (ERelay (VString "offer") (VObject 7));
      WsSend 1%nat EPeerLeft]).
Proof. destruct v; by vm_compute. Qed.

(** When the last occupant disconnects the room is deleted. *)
Example last_occupant_leaves v :
  rooms (run v (sender_joins ++ [(1, EvClose 1%nat)]) initial).1 = ∅.
Proof. destruct v; by vm_compute. Qed.

(** ** What each handler leaves alone *)

Lemma touchRoom_sockets t id st : sockets (touchRoom t id st) = sockets st.
Proof. unfold touchRoom. by destruct (rooms st !! id). Qed.

Lemma touchRoom_rateLimit t id st : rateLimit (touchRoom t id st) = rateLimit st.
Proof. unfold touchRoom. by destruct (rooms st !! id). Qed.

Lemma getRoom_sockets t id st : sockets (getRoom t id st).2 = sockets st.
Proof. unfold getRoom. by destruct (rooms st !! id). Qed.

Lemma getRoom_rateLimit t id st : rateLimit (getRoom t id st).2 = rateLimit st.
Proof. unfold getRoom. by destruct (rooms st !! id). Qed.

Lemma cleanupSocket_frame t ws st :
  sockets (cleanupSocket t ws st).1 = sockets st
  ∧ rateLimit (cleanupSocket t ws st).1 = rateLimit st.
Proof.
  unfold cleanupSocket.
  destruct (negb _ || negb _); [done|].
  destruct (rooms st !! _); [|done].
  destruct (bool_decide _ && bool_decide _); simpl;
    by rewrite touchRoom_sockets, touchRoom_rateLimit.
Qed.

Lemma handleRelay_frame v t ws msg st :
  sockets (handleRelay v t ws msg st).1 = sockets st
  ∧ rateLimit (handleRelay v t ws msg st).1 = rateLimit st.
Proof.
  destruct v; simpl.
  - unfold handleRelayDeno. destruct (rooms st !! _); simpl; [|done].
    by rewrite touchRoom_sockets, touchRoom_rateLimit.
  - unfold handleRelayNode.
    destruct (negb _ || negb _); [done|].
    destruct (rooms st !! _); [|done].
    destruct (if strict_eq _ _ then _ else _); [|done].
    destruct (ws_readyState _); simpl; [|done..].
    by rewrite touchRoom_sockets, touchRoom_rateLimit.
Qed.

Lemma handleJoin_frame v t ws msg st :
  rateLimit (handleJoin v t ws msg st).1 = rateLimit st
  ∧ (sockets (handleJoin v t ws msg st).1 = sockets st
     ∨ sockets (handleJoin v t ws msg st).1
       = <[ws := Socket (m_roomId msg) (m_role msg)
                        (ws_readyState (get_socket st ws))]> (sockets st)).
Proof.
  unfold handleJoin.
  destruct (negb _ || negb _ || negb _); [by auto|].
  pose proof (getRoom_sockets t (m_roomId msg) st) as Hs.
  pose proof (getRoom_rateLimit t (m_roomId msg) st) as Hr.
  destruct (getRoom t (m_roomId msg) st) as [r st1]. simpl in Hs, Hr.
  repeat (match goal with |- context [if ?b then _ else _] => destruct b end;
          simpl; rewrite ?touchRoom_sockets, ?touchRoom_rateLimit; simpl;
          rewrite ?Hs, ?Hr; auto).
  all: split; [done|]; right; unfold get_socket; simpl; by rewrite Hs.
Qed.

Lemma dispatch_rateLimit v t ws msg st :
  rateLimit (dispatch v t ws msg st).1 = rateLimit st.
Proof.
  unfold dispatch.
  destruct (strict_eq _ _); [apply handleJoin_frame|].
  destruct (is_relay_type _); [apply handleRelay_frame|].
  destruct (strict_eq _ _); [apply cleanupSocket_frame|done].
Qed.

Lemma binding_ext st st' w :
  sockets st' = sockets st → binding st' w = binding st w.
Proof. unfold binding, get_socket. by intros ->. Qed.

Lemma binding_put ws s st w :
  binding (put_socket ws s st) w
  = if decide (ws = w) then (ws_roomId s, ws_role s) else binding st w.
Proof.
  unfold binding, get_socket, put_socket. simpl.
  rewrite lookup_insert. by destruct (decide (ws = w)).
Qed.

Lemma binding_mark rs ws st w : binding (mark rs ws st) w = binding st w.
Proof.
  unfold mark. rewrite binding_put. destruct (decide (ws = w)) as [->|]; done.
Qed.

Lemma binding_close ws st w : binding (close ws st) w = binding st w.
Proof.
  unfold close. destruct (ws_readyState _); [|done..].
  apply (binding_mark CLOSING).
Qed.

Lemma close_rooms ws st : rooms (close ws st) = rooms st.
Proof. unfold close. by destruct (ws_readyState _). Qed.

Lemma close_rateLimit ws st : rateLimit (close ws st) = rateLimit st.
Proof. unfold close. by destruct (ws_readyState _). Qed.

(** The janitor's loop, from any accumulator and over any list of entries:
    rooms are only removed, and no socket annotation or rate window is
    touched. *)
Lemma close_slot_frame x acc :
  rooms (close_slot x acc).1 = rooms acc.1
  ∧ rateLimit (close_slot x acc).1 = rateLimit acc.1
  ∧ (∀ w, binding (close_slot x acc).1 w = binding acc.1 w)
  ∧ ∃ l, (close_slot x acc).2 = acc.2 ++ l
         ∧ Forall (λ e, ∃ w, e = WsClose w None None) l.
Proof.
  destruct x as [w|]; simpl.
  - rewrite close_rooms, close_rateLimit. repeat split; [apply binding_close|].
    eexists. split; [done|]. repeat constructor. eauto.
  - repeat split. exists []. by rewrite app_nil_r.
Qed.

Lemma sweep_body_frame cutoff acc e :
  (∀ id r, rooms (sweep_body cutoff acc e).1 !! id = Some r →
           rooms acc.1 !! id = Some r)
  ∧ rateLimit (sweep_body cutoff acc e).1 = rateLimit acc.1
  ∧ (∀ w, binding (sweep_body cutoff acc e).1 w = binding acc.1 w)
  ∧ ∃ l, (sweep_body cutoff acc e).2 = acc.2 ++ l
         ∧ Forall (λ e, ∃ w, e = WsClose w None None) l.
Proof.
  unfold sweep_body. case_bool_decide.
  - destruct (close_slot_frame (sender e.2) acc) as (R1 & L1 & B1 & l1 & O1 & F1).
    destruct (close_slot_frame (receiver e.2) (close_slot (sender e.2) acc))
      as (R2 & L2 & B2 & l2 & O2 & F2).
    simpl. repeat split.
    + intros id r. rewrite R2, R1. intros [_ ?]%lookup_delete_Some. done.
    + by rewrite L2.
    + intros w. etrans; [|apply B1]. etrans; [|apply B2]. by apply binding_ext.
    + exists (l1 ++ l2). rewrite O2, O1, app_assoc. split; [done|].
      by apply Forall_app.
  - repeat split; [done|]. exists []. by rewrite app_nil_r.
Qed.

Lemma sweep_fold_frame cutoff l acc :
  let res := foldl (sweep_body cutoff) acc l in
  (∀ id r, rooms res.1 !! id = Some r → rooms acc.1 !! id = Some r)
  ∧ rateLimit res.1 = rateLimit acc.1
  ∧ (∀ w, binding res.1 w = binding acc.1 w)
  ∧ ∃ l', res.2 = acc.2 ++ l'
          ∧ Forall (λ e, ∃ w, e = WsClose w None None) l'.
Proof.
  revert acc. induction l as [|e l IH]; intros acc; simpl.
  - repeat split; [done|]. exists []. by rewrite app_nil_r.
  - destruct (IH (sweep_body cutoff acc e)) as (R & L & B & l2 & O & F).
    destruct (sweep_body_frame cutoff acc e) as (R1 & L1 & B1 & l1 & O1 & F1).
    repeat split.
    + intros id r Hl. by apply R1, R.
    + by rewrite L.
    + intros w. by rewrite B.
    + exists (l1 ++ l2). rewrite O, O1, app_assoc. split; [done|].
      by apply Forall_app.
Qed.

Lemma cleanupStale_frame t st :
  (∀ id r, rooms (cleanupStale t st).1 !! id = Some r → rooms st !! id = Some r)
  ∧ rateLimit (cleanupStale t st).1 = rateLimit st
  ∧ (∀ w, binding (cleanupStale t st).1 w = binding st w)
  ∧ Forall (λ e, ∃ w, e = WsClose w None None) (cleanupStale t st).2.
Proof.
  unfold cleanupStale.
  destruct (sweep_fold_frame (t - ROOM_TTL_MS) (map_to_list (rooms st)) (st, []))
    as (R & L & B & l & O & F).
  repeat split; [done..|]. by rewrite O.
Qed.

(** ** Where the occupants of a room come from *)

Lemma room_prov_sub w (m m' : gmap value room) :
  (∀ id r, m' !! id = Some r → m !! id = Some r) → room_prov w m m'.
Proof.
  intros Hsub id r' Hl. apply Hsub in Hl. rewrite Hl. simpl.
  unfold slot_ok. split_and!; eauto.
Qed.

Lemma room_prov_refl w (m : gmap value room) : room_prov w m m.
Proof. by apply room_prov_sub. Qed.

Lemma room_prov_delete w id (m : gmap value room) : room_prov w m (delete id m).
Proof. apply room_prov_sub. by intros id' r [_ ?]%lookup_delete_Some. Qed.

Lemma room_prov_insert w id r' (m : gmap value room) :
  is_Some (m !! id) ∨ truthy id = true →
  slot_ok w (m !! id ≫= sender) (sender r') →
  slot_ok w (m !! id ≫= receiver) (receiver r') →
  room_prov w m (<[id := r']> m).
Proof.
  intros Hid Hs Hr id' r''. rewrite lookup_insert.
  destruct (decide (id = id')) as [<-|].
  - intros [= <-]. done.
  - intros Hl. by apply (room_prov_refl w m).
Qed.

Lemma room_prov_trans w (m1 m2 m3 : gmap value room) :
  room_prov w m1 m2 → room_prov w m2 m3 → room_prov w m1 m3.
Proof.
  intros H12 H23 id r3 Hl. destruct (H23 id r3 Hl) as (Hid & Hs & Hr).
  destruct (m2 !! id) as [r2|] eqn:H2; simpl in *.
  - destruct (H12 id r2 H2) as (Hid' & Hs' & Hr').
    unfold slot_ok in *. intuition congruence.
  - destruct Hid as [[? [=]]|Hid]. unfold slot_ok in *.
    split; [by right|]. intuition congruence.
Qed.

Lemma touchRoom_prov w t id st : room_prov w (rooms st) (rooms (touchRoom t id st)).
Proof.
  unfold touchRoom. destruct (rooms st !! id) as [r|] eqn:Hl; simpl.
  - apply room_prov_insert; rewrite Hl; unfold slot_ok; simpl; eauto.
  - apply room_prov_refl.
Qed.

Lemma cleanupSocket_prov t ws st :
  room_prov None (rooms st) (rooms (cleanupSocket t ws st).1).
Proof.
  unfold cleanupSocket.
  destruct (negb _ || negb _); [apply room_prov_refl|].
  destruct (rooms st !! _) as [r|] eqn:Hl; [|apply room_prov_refl].
  set (r1 := if _ && bool_decide (sender r = _) then _ else _).
  set (r2 := if _ && bool_decide (receiver r1 = _) then _ else _).
  assert (H1 : room_prov None (rooms st)
                 (<[ws_roomId (get_socket st ws) := r2]> (rooms st))).
  { apply room_prov_insert; rewrite Hl; [eauto|..]; simpl; unfold slot_ok;
      subst r1 r2; repeat (destruct (_ && _); simpl); eauto. }
  destruct (bool_decide _ && bool_decide _); simpl.
  - eapply room_prov_trans; [|apply room_prov_delete].
    eapply room_prov_trans; [apply H1|]. apply (touchRoom_prov None t _ (set_rooms _ st)).
  - eapply room_prov_trans; [apply H1|]. apply (touchRoom_prov None t _ (set_rooms _ st)).
Qed.

Lemma handleRelay_prov v t ws msg st :
  room_prov None (rooms st) (rooms (handleRelay v t ws msg st).1).
Proof.
  destruct v; simpl.
  - unfold handleRelayDeno. destruct (rooms st !! _); simpl;
      [apply touchRoom_prov | apply room_prov_refl].
  - unfold handleRelayNode.
    destruct (negb _ || negb _); [apply room_prov_refl|].
    destruct (rooms st !! _); [|apply room_prov_refl].
    destruct (if strict_eq _ _ then _ else _); [|apply room_prov_refl].
    destruct (ws_readyState _); simpl;
      [apply touchRoom_prov | apply room_prov_refl..].
Qed.

Lemma getRoom_prov w t id st :
  truthy id = true → room_prov w (rooms st) (rooms (getRoom t id st).2).
Proof.
  intros Hid. unfold getRoom. destruct (rooms st !! id) eqn:Hl; simpl.
  - apply room_prov_refl.
  - apply room_prov_insert; rewrite ?Hl; unfold slot_ok; simpl; eauto.
Qed.

Lemma getRoom_lookup t id st :
  rooms (getRoom t id st).2 !! id = Some (getRoom t id st).1.
Proof.
  unfold getRoom. destruct (rooms st !! id) eqn:Hl; simpl; [done|].
  apply lookup_insert_eq.
Qed.

Lemma handleJoin_prov v t ws msg st :
  room_prov (Some ws) (rooms st) (rooms (handleJoin v t ws msg st).1).
Proof.
  unfold handleJoin.
  destruct (negb _ || negb _ || negb _) eqn:Hreq; [apply room_prov_refl|].
  apply orb_false_elim in Hreq as [[Hid _]%orb_false_elim _].
  apply negb_false_iff in Hid.
  pose proof (getRoom_prov (Some ws) t _ st Hid) as H0.
  pose proof (getRoom_lookup t (m_roomId msg) st) as Hl.
  destruct (getRoom t (m_roomId msg) st) as [r st1]. simpl in H0, Hl.
  destruct (truthy (token r) && _); [done|].
  set (r1 := if negb (truthy (token r)) then _ else _).
  assert (Hs1 : sender r1 = sender r) by (subst r1; by destruct (negb _)).
  assert (Hr1 : receiver r1 = receiver r) by (subst r1; by destruct (negb _)).
  assert (H1 : room_prov (Some ws) (rooms st) (<[m_roomId msg := r1]> (rooms st1))).
  { eapply room_prov_trans; [apply H0|].
    apply room_prov_insert; rewrite Hl; [eauto|..]; simpl; unfold slot_ok; eauto. }
  destruct (_ && _ && negb _); [done|].
  destruct (_ && _ && negb _); [done|].
  destruct (_ && negb _); [done|].
  simpl.
  eapply room_prov_trans; [|apply (touchRoom_prov _ t _ (set_rooms _ _))].
  simpl. eapply room_prov_trans; [apply H1|].
  apply room_prov_insert; rewrite lookup_insert_eq; [eauto|..]; simpl;
    unfold slot_ok; repeat (destruct (strict_eq _ _); simpl); eauto.
Qed.

Lemma dispatch_prov v t ws msg st :
  room_prov (if strict_eq (m_type msg) (VString "join") then Some ws else None)
            (rooms st) (rooms (dispatch v t ws msg st).1).
Proof.
  unfold dispatch.
  destruct (strict_eq _ _); [apply handleJoin_prov|].
  destruct (is_relay_type _); [apply handleRelay_prov|].
  destruct (strict_eq _ _); [apply cleanupSocket_prov|apply room_prov_refl].
Qed.

Lemma enforceRate_rooms v t ws st : rooms (enforceRate v t ws st).1.2 = rooms st.
Proof.
  unfold enforceRate. case_bool_decide; simpl; [|done]. by rewrite close_rooms.
Qed.

Lemma onmessage_prov v t ws p st :
  room_prov (joiner v (EvMessage ws p)) (rooms st) (rooms (onmessage v t ws p st).1).
Proof.
  unfold onmessage, joiner.
  destruct (too_big v p); simpl.
  { rewrite close_rooms. apply room_prov_refl. }
  pose proof (enforceRate_rooms v t ws st) as HR.
  destruct (enforceRate v t ws st) as [[ok st1] out]. simpl in HR.
  destruct ok; simpl; [|rewrite HR; apply room_prov_refl].
  destruct (parse_frame v p) as [| |m]; simpl.
  - rewrite close_rooms, HR. apply room_prov_refl.
  - rewrite HR. apply room_prov_refl.
  - rewrite <- HR. apply dispatch_prov.
Qed.

Lemma step_prov v t ev st :
  room_prov (joiner v ev) (rooms st) (rooms (step v t ev st).1).
Proof.
  destruct ev as [ws p|ws|ws|]; simpl.
  - apply onmessage_prov.
  - apply (cleanupSocket_prov t ws (mark CLOSED ws st)).
  - rewrite <- (close_rooms ws st) at 1. apply cleanupSocket_prov.
  - apply room_prov_sub, cleanupStale_frame.
Qed.

(** ** Reachable states *)

Lemma run_app v tr1 tr2 st :
  run v (tr1 ++ tr2) st
  = ((run v tr2 (run v tr1 st).1).1, (run v tr1 st).2 ++ (run v tr2 (run v tr1 st).1).2).
Proof.
  revert st. induction tr1 as [|[t ev] tr1 IH]; intros st; simpl.
  - by destruct (run v tr2 st).
  - destruct (step v t ev st) as [st1 out1]. rewrite IH.
    destruct (run v tr1 st1) as [st2 out2]. simpl.
    destruct (run v tr2 st2) as [st3 out3]. simpl. by rewrite app_assoc.
Qed.

Lemma reachable_initial v : reachable v initial.
Proof. by exists []. Qed.

Lemma reachable_ind v (P : state → Prop) :
  P initial →
  (∀ t ev st, reachable v st → P st → P (step v t ev st).1) →
  ∀ st, reachable v st → P st.
Proof.
  intros H0 Hstep st [tr <-]. induction tr as [|[t ev] tr IH] using rev_ind.
  - done.
  - rewrite run_app. simpl. specialize (Hstep t ev _ (ex_intro _ tr eq_refl) IH).
    by destruct (step v t ev _).
Qed.

(** Every room id of a reachable registry is truthy: rooms are created by
    joins only, and a join with a falsy [roomId] is refused. *)
Lemma reachable_ids_truthy v st :
  reachable v st → ∀ id r, rooms st !! id = Some r → truthy id = true.
Proof.
  revert st. apply (reachable_ind v (λ st, ∀ id r, rooms st !! id = Some r → truthy id = true)).
  - intros id r. simpl. by rewrite lookup_empty.
  - intros t ev st _ IH id r Hl. destruct (step_prov v t ev st id r Hl) as ([[r0 H0]|?] & _); eauto.
Qed.

(** ** What each handler sends *)

Lemma send_elem st w m e : e ∈ send st w m → ∃ c, w = Some c ∧ e = WsSend c m.
Proof.
  unfold send. destruct w as [c|]; [|by intros ?%elem_of_nil].
  destruct (ws_readyState _); [|by intros ?%elem_of_nil..].
  intros ->%list_elem_of_singleton. eauto.
Qed.

Lemma cleanupSocket_out t ws st e :
  e ∈ (cleanupSocket t ws st).2 → ∃ c, e = WsSend c EPeerLeft.
Proof.
  unfold cleanupSocket.
  destruct (negb _ || negb _); [by intros ?%elem_of_nil|].
  destruct (rooms st !! _); [|by intros ?%elem_of_nil].
  destruct (bool_decide _ && bool_decide _); simpl;
    intros (c & _ & ->)%send_elem; eauto.
Qed.

Lemma handleRelay_out v t ws msg st e :
  e ∈ (handleRelay v t ws msg st).2 →
  ∃ c, (∃ s, e = WsSend c (EError s)) ∨ e = WsSend c (ERelay (m_type msg) (m_data msg)).
Proof.
  destruct v; simpl.
  - unfold handleRelayDeno. destruct (rooms st !! _); simpl;
      intros (c & _ & ->)%send_elem; eauto.
  - unfold handleRelayNode.
    destruct (negb _ || negb _); [simpl; intros (c & _ & ->)%send_elem; eauto|].
    destruct (rooms st !! _); [|simpl; intros (c & _ & ->)%send_elem; eauto].
    destruct (if strict_eq _ _ then _ else _); [|simpl; intros (c & _ & ->)%send_elem; eauto].
    destruct (ws_readyState _); simpl; intros (c & _ & ->)%send_elem; eauto.
Qed.

(** A join run sends an [error] to its socket, or it succeeds: then the
    socket is bound to the join's room and role, [joined] goes to the socket
    and [ready] only to occupants of the joined room. *)
Lemma handleJoin_out v t ws msg st e :
  e ∈ (handleJoin v t ws msg st).2 →
  (∃ s, e = WsSend ws (EError s))
  ∨ (binding (handleJoin v t ws msg st).1 ws = (m_roomId msg, m_role msg)
     ∧ (e = WsSend ws (EJoined (m_roomId msg) (m_role msg))
        ∨ ∃ c r', e = WsSend c EReady
            ∧ rooms (handleJoin v t ws msg st).1 !! m_roomId msg = Some r'
            ∧ (sender r' = Some c ∨ receiver r' = Some c))).
Proof.
  unfold handleJoin.
  destruct (negb _ || negb _ || negb _); [simpl; intros (c & [= <-] & ->)%send_elem; eauto|].
  destruct (getRoom t (m_roomId msg) st) as [r st1].
  destruct (truthy (token r) && _); [simpl; intros (c & [= <-] & ->)%send_elem; eauto|].
  set (r1 := if negb (truthy (token r)) then _ else _).
  destruct (_ && _ && negb _); [simpl; intros (c & [= <-] & ->)%send_elem; eauto|].
  destruct (_ && _ && negb _); [simpl; intros (c & [= <-] & ->)%send_elem; eauto|].
  destruct (_ && negb _); [simpl; intros (c & [= <-] & ->)%send_elem; eauto|].
  set (r2 := if strict_eq _ _ then set_sender _ _ else _).
  set (r3 := if strict_eq _ _ then set_receiver _ _ else _).
  simpl. intros He. right. split.
  { unfold binding, get_socket. rewrite touchRoom_sockets. simpl.
    by rewrite lookup_insert_eq. }
  apply elem_of_app in He as [He|He].
  { apply send_elem in He as (c & [= <-] & ->). by left. }
  right. destruct (bool_decide _ && bool_decide _); [|by apply elem_of_nil in He].
  assert (Hl : rooms (touchRoom t (m_roomId msg)
                 (set_rooms (<[m_roomId msg:=r3]> (rooms
                    (put_socket ws (Socket (m_roomId msg) (m_role msg)
                       (ws_readyState (get_socket
                          (set_rooms (<[m_roomId msg:=r1]> (rooms st1)) st1) ws)))
                       (set_rooms (<[m_roomId msg:=r1]> (rooms st1)) st1))))
                    (put_socket ws (Socket (m_roomId msg) (m_role msg)
                       (ws_readyState (get_socket
                          (set_rooms (<[m_roomId msg:=r1]> (rooms st1)) st1) ws)))
                       (set_rooms (<[m_roomId msg:=r1]> (rooms st1)) st1))))
               !! m_roomId msg = Some (set_touchedAt t r3)).
  { erewrite touchRoom_known by apply lookup_insert_eq. simpl.
    apply lookup_insert_eq. }
  apply elem_of_app in He as [He|He]; apply send_elem in He as (c & Hc & ->);
    exists c, (set_touchedAt t r3); (split; [done|]); (split; [exact Hl|]);
    simpl; auto.
Qed.

(** ** What changes the annotations of a socket *)

Lemma enforceRate_binding v t ws st w :
  binding (enforceRate v t ws st).1.2 w = binding st w.
Proof.
  unfold enforceRate. case_bool_decide; simpl; [|done]. by rewrite binding_close.
Qed.

Lemma enforceRate_out v t ws st e :
  e ∈ (enforceRate v t ws st).2 →
  e = WsClose ws (Some 1013) (Some (text_rate_limit v))
  ∧ (enforceRate v t ws st).1.1 = false.
Proof.
  unfold enforceRate. case_bool_decide; simpl; [|by intros ?%elem_of_nil].
  by intros ->%list_elem_of_singleton.
Qed.

Lemma dispatch_binding v t ws msg st w :
  binding (dispatch v t ws msg st).1 w = binding st w
  ∨ (w = ws ∧ m_type msg = VString "join"
     ∧ binding (dispatch v t ws msg st).1 w = (m_roomId msg, m_role msg)).
Proof.
  unfold dispatch.
  destruct (strict_eq _ _) eqn:Hty.
  { apply strict_eq_true in Hty.
    destruct (handleJoin_frame v t ws msg st) as [_ [Hs|Hs]].
    - left. by apply binding_ext.
    - unfold binding, get_socket. rewrite Hs, lookup_insert.
      destruct (decide (ws = w)) as [->|]; simpl; auto. }
  clear Hty. left. destruct (is_relay_type _); [apply binding_ext, handleRelay_frame|].
  destruct (strict_eq _ _); [apply binding_ext, cleanupSocket_frame|done].
Qed.

Lemma dispatch_joined v t ws msg st w id ro :
  WsSend w (EJoined id ro) ∈ (dispatch v t ws msg st).2 →
  w = ws ∧ binding (dispatch v t ws msg st).1 ws = (id, ro).
Proof.
  unfold dispatch.
  destruct (strict_eq _ _).
  { intros [[s [=]]|[Hb [[= -> -> ->]|(c & r' & [=] & _)]]]%handleJoin_out. done. }
  destruct (is_relay_type _).
  { intros [c [[s [=]]|[=]]]%handleRelay_out. }
  destruct (strict_eq _ _).
  { intros [c [=]]%cleanupSocket_out. }
  simpl. intros (c & _ & [=])%send_elem.
Qed.

(** ** Sends and slot updates that change nothing *)

Lemma send_ext st st' w m :
  (∀ c, ws_readyState (get_socket st' c) = ws_readyState (get_socket st c)) →
  send st' w m = send st w m.
Proof. intros H. unfold send. destruct w as [c|]; [|done]. by rewrite H. Qed.

Lemma set_sender_id r w : sender r = w → set_sender w r = r.
Proof. intros <-. by destruct r. Qed.

Lemma set_receiver_id r w : receiver r = w → set_receiver w r = r.
Proof. intros <-. by destruct r. Qed.

(** ** Sockets outside a room, and who gets [ready] *)

Lemma room_prov_absent w (m m' : gmap value room) ws id :
  room_prov w m m' → w ≠ Some ws → absent_from m ws id → absent_from m' ws id.
Proof.
  intros Hp Hw Ha r' Hl. destruct (Hp id r' Hl) as (_ & Hs & Hr).
  unfold slot_ok in *. destruct (m !! id) as [r|] eqn:Hm; simpl in *.
  - destruct (Ha r Hm). split; intros E; rewrite E in *; intuition congruence.
  - split; intros E; rewrite E in *; intuition congruence.
Qed.

Lemma run_absent v tr st ws id :
  no_join_by v ws tr → absent_from (rooms st) ws id →
  absent_from (rooms (run v tr st).1) ws id.
Proof.
  revert st. induction tr as [|[t ev] tr IH]; intros st Hn Ha; simpl; [done|].
  apply Forall_cons in Hn as [Hev Hn]. simpl in Hev.
  pose proof (step_prov v t ev st) as Hp.
  destruct (step v t ev st) as [st1 out1]. simpl in Hp.
  specialize (IH st1 Hn (room_prov_absent _ _ _ _ _ Hp Hev Ha)).
  by destruct (run v tr st1).
Qed.

(** [ready] is sent by joins only, and only to occupants of the joined
    room. *)
Lemma step_ready v t ev st c :
  WsSend c EReady ∈ (step v t ev st).2 →
  ∃ w q m r', ev = EvMessage w q ∧ parse_frame v q = Parsed m
    ∧ m_type m = VString "join"
    ∧ rooms (step v t ev st).1 !! m_roomId m = Some r'
    ∧ (sender r' = Some c ∨ receiver r' = Some c).
Proof.
  destruct ev as [ws p|ws|ws|]; simpl.
  - unfold onmessage. destruct (too_big v p); simpl.
    { intros [=]%list_elem_of_singleton. }
    pose proof (enforceRate_out v t ws st) as HO.
    destruct (enforceRate v t ws st) as [[ok st1] out]. simpl in HO.
    destruct ok; simpl; [|by intros [[=] _]%HO].
    destruct (parse_frame v p) as [| |m] eqn:Hp; simpl.
    + intros [=]%list_elem_of_singleton.
    + intros []%elem_of_nil.
    + unfold dispatch. destruct (strict_eq _ _) eqn:Hty.
      { apply strict_eq_true in Hty.
        intros [[s [=]]|[_ [[=]|(c' & r' & [= <-] & Hl & Hc)]]]%handleJoin_out.
        exists ws, p, m, r'. done. }
      clear Hty. destruct (is_relay_type _).
      { intros [c' [[s [=]]|[=]]]%handleRelay_out. }
      destruct (strict_eq _ _).
      { intros [c' [=]]%cleanupSocket_out. }
      simpl. intros (c' & _ & [=])%send_elem.
  - intros [c' [=]]%cleanupSocket_out.
  - intros [c' [=]]%cleanupSocket_out.
  - destruct (cleanupStale_frame t st) as (_ & _ & _ & F).
    intros Hin. rewrite Forall_forall in F. by destruct (F _ Hin) as [c' [=]].
Qed.

(** ** The rate limiter along a run *)

Lemma enforceRate_rateLimit v t ws st :
  rateLimit (enforceRate v t ws st).1.2
  = <[ws := next_window t (window st ws)]> (rateLimit st).
Proof.
  unfold enforceRate. fold (window st ws). fold (next_window t (window st ws)).
  case_bool_decide; simpl; [|done]. by rewrite close_rateLimit.
Qed.

Lemma enforceRate_verdict v t ws st :
  (enforceRate v t ws st).1.1
  = negb (bool_decide (RATE_LIMIT_MAX < length (next_window t (window st ws)))%nat).
Proof.
  unfold enforceRate. fold (window st ws). fold (next_window t (window st ws)).
  by case_bool_decide.
Qed.

Lemma step_window v t ev st ws :
  window (step v t ev st).1 ws
  = if rate_checked v ws ev then next_window t (window st ws) else window st ws.
Proof.
  unfold window at 1. destruct ev as [w p|w|w|]; simpl.
  - unfold onmessage. destruct (too_big v p); simpl.
    { by rewrite close_rateLimit, andb_false_r. }
    pose proof (enforceRate_rateLimit v t w st) as HR.
    destruct (enforceRate v t w st) as [[ok st1] out]. simpl in HR.
    assert (Hw : default [] (rateLimit st1 !! ws)
                 = if bool_decide (w = ws) && true
                   then next_window t (window st ws) else window st ws).
    { rewrite HR, lookup_insert. case_bool_decide as Hd; simpl.
      - subst w. by rewrite decide_True.
      - by rewrite decide_False. }
    destruct ok; simpl; [|done].
    destruct (parse_frame v p); simpl;
      rewrite ?close_rateLimit, ?dispatch_rateLimit; done.
  - by rewrite (proj2 (cleanupSocket_frame t w (mark CLOSED w st))).
  - by rewrite (proj2 (cleanupSocket_frame t w (close w st))), close_rateLimit.
  - destruct (cleanupStale_frame t st) as (_ & -> & _). done.
Qed.

Lemma filter_later (a b : Z) (l : list Z) :
  a ≤ b → filter (λ x, b ≤ x) (filter (λ x, a ≤ x) l) = filter (λ x, b ≤ x) l.
Proof.
  intros Hab. induction l as [|x l IH]; [done|].
  rewrite !filter_cons. repeat case_decide; rewrite ?filter_cons;
    repeat case_decide; try lia; by rewrite IH.
Qed.

Lemma step_kept v t ev st ws T :
  t ≤ T →
  length (kept T (step v t ev st).1 ws)
  = (length (kept T st ws)
     + if bool_decide (rate_checked v ws ev = true ∧ (T - RATE_LIMIT_WINDOW_MS ≤ t)%Z)
       then 1 else 0)%nat.
Proof.
  intros Ht. unfold kept. rewrite step_window.
  destruct (rate_checked v ws ev) eqn:Hc.
  - unfold next_window. rewrite filter_app, filter_later by lia.
    rewrite length_app. f_equal. rewrite filter_cons, filter_nil.
    case_bool_decide as Hd; case_decide; try done.
    + destruct Hd. lia.
    + destruct Hd. done.
  - rewrite bool_decide_eq_false_2 by (intros [? _]; done). lia.
Qed.

Lemma run_kept v tr st ws T :
  Forall (λ e, e.1 ≤ T) tr →
  length (kept T (run v tr st).1 ws)
  = (length (kept T st ws) + length (recent_frames v ws T tr))%nat.
Proof.
  revert st. induction tr as [|[t ev] tr IH]; intros st Hle.
  { simpl. lia. }
  unfold recent_frames. rewrite filter_cons. fold (recent_frames v ws T tr).
  cbn [run].
  apply Forall_cons in Hle as [Ht Hle]. simpl in Ht.
  pose proof (step_kept v t ev st ws T Ht) as Hk.
  destruct (step v t ev st) as [st1 out1]. simpl in Hk.
  specialize (IH st1 Hle). destruct (run v tr st1) as [st2 out2]. simpl in *.
  rewrite IH, Hk.
  case_bool_decide; case_decide; try done; simpl; lia.
Qed.

Lemma run_cons_state v t ev tr st :
  (run v ((t, ev) :: tr) st).1 = (run v tr (step v t ev st).1).1.
Proof.
  simpl. destruct (step v t ev st) as [st1 out1]. simpl.
  by destruct (run v tr st1).
Qed.

Lemma filter_all_old (t : Z) (l : list Z) :
  Forall (λ x, x + RATE_LIMIT_WINDOW_MS < t) l →
  filter (λ x, t - RATE_LIMIT_WINDOW_MS ≤ x) l = [].
Proof.
  induction 1 as [|x l Hx _ IH]; [done|].
  rewrite filter_cons, IH. case_decide; [lia|done].
Qed.

Lemma spaced_tail a l : spaced (a :: l) → spaced l.
Proof. destruct l; simpl; tauto. Qed.

Lemma arrivals_cons ws t ev tr :
  arrivals ws ((t, ev) :: tr)
  = match ev with
    | EvMessage w _ => if decide (w = ws) then t :: arrivals ws tr else arrivals ws tr
    | _ => arrivals ws tr
    end.
Proof.
  unfold arrivals. destruct ev as [w q| | |]; simpl; try done.
  by destruct (decide (w = ws)).
Qed.

Lemma spaced_checks_pass v ws tr : ∀ st,
  spaced (arrivals ws tr) →
  (∀ a, head (arrivals ws tr) = Some a →
        Forall (λ x, x + RATE_LIMIT_WINDOW_MS < a) (window st ws)) →
  ∀ tr1 t q tr2, tr = tr1 ++ (t, EvMessage ws q) :: tr2 →
    (enforceRate v t ws (run v tr1 st).1).1.1 = true.
Proof.
  induction tr as [|[t0 ev0] tr IH]; intros st Hsp Hhd tr1 t q tr2 Heq.
  { by destruct tr1. }
  rewrite arrivals_cons in Hsp, Hhd.
  destruct tr1 as [|e1 tr1]; simpl in Heq.
  - injection Heq as -> -> ->. simpl.
    rewrite enforceRate_verdict. unfold next_window.
    rewrite filter_all_old; [reflexivity|].
    apply Hhd. by rewrite decide_True.
  - injection Heq as <- Heq. rewrite run_cons_state.
    eapply IH; [| |exact Heq].
    + destruct ev0 as [w q0| | |]; try done.
      destruct (decide (w = ws)); [by eapply spaced_tail|done].
    + intros a Ha. rewrite step_window.
      destruct ev0 as [w q0| | |]; try (by apply Hhd).
      unfold rate_checked.
      destruct (decide (w = ws)) as [->|Hne].
      2:{ rewrite bool_decide_eq_false_2 by done. by apply Hhd. }
      specialize (Hhd t0 eq_refl).
      assert (Hlt : t0 + RATE_LIMIT_WINDOW_MS < a).
      { destruct (arrivals ws tr) as [|b l]; [done|].
        injection Ha as ->. by destruct Hsp. }
      destruct (bool_decide (ws = ws) && negb (too_big v q0)).
      * unfold next_window. rewrite filter_all_old by done.
        by apply Forall_singleton.
      * eapply Forall_impl; [apply Hhd|]. simpl.
        unfold RATE_LIMIT_WINDOW_MS in *. lia.
Qed.

(** ** No take-over of an occupied slot *)

Lemma handleJoin_no_takeover v t ws msg st id r r' :
  rooms st !! id = Some r →
  rooms (handleJoin v t ws msg st).1 !! id = Some r' →
  slot_kept (sender r) (sender r') ∧ slot_kept (receiver r) (receiver r').
Proof.
  intros Hl. unfold handleJoin, slot_kept.
  destruct (negb _ || negb _ || negb _).
  { simpl. rewrite Hl. intros [= <-]. auto. }
  destruct (decide (id = m_roomId msg)) as [->|Hne].
  2:{ intros Hl'. assert (rooms st !! id = Some r') as Hr'; [|rewrite Hl in Hr'; injection Hr' as <-; auto].
      revert Hl'. unfold getRoom. destruct (rooms st !! m_roomId msg); simpl;
        repeat (match goal with |- context [if ?b then _ else _] => destruct b end; simpl);
        unfold touchRoom; simpl; rewrite ?lookup_insert_eq; simpl;
        rewrite ?lookup_insert_ne by done; done. }
  rewrite (getRoom_known _ _ _ _ Hl).
  destruct (truthy (token r) && _).
  { simpl. rewrite Hl. intros [= <-]. auto. }
  set (r1 := if negb (truthy (token r)) then _ else _).
  assert (Hs1 : sender r1 = sender r) by (subst r1; by destruct (negb _)).
  assert (Hr1 : receiver r1 = receiver r) by (subst r1; by destruct (negb _)).
  destruct (strict_eq (m_role msg) (VString "sender") && _ && negb _) eqn:G1.
  { simpl. rewrite lookup_insert_eq. intros [= <-]. rewrite Hs1, Hr1. auto. }
  destruct (strict_eq (m_role msg) (VString "receiver") && _ && negb _) eqn:G2.
  { simpl. rewrite lookup_insert_eq. intros [= <-]. rewrite Hs1, Hr1. auto. }
  destruct (bool_decide (MAX_PER_ROOM ≤ _)%nat && negb _).
  { simpl. rewrite lookup_insert_eq. intros [= <-]. rewrite Hs1, Hr1. auto. }
  simpl. erewrite touchRoom_known by (simpl; apply lookup_insert_eq). simpl.
  rewrite lookup_insert_eq. intros [= <-]. simpl.
  rewrite Hs1 in G1. rewrite Hr1 in G2.
  destruct (strict_eq (m_role msg) (VString "sender")) eqn:E1;
    destruct (strict_eq (m_role msg) (VString "receiver")) eqn:E2; simpl in *;
    rewrite ?Hs1, ?Hr1.
  - split.
    + destruct (sender r) as [a|]; [|auto]. right; left.
      rewrite bool_decide_eq_true_2 in G1 by eauto. simpl in G1.
      apply negb_false_iff, bool_decide_eq_true in G1. done.
    + destruct (receiver r) as [a|]; [|auto]. right; left.
      rewrite bool_decide_eq_true_2 in G2 by eauto. simpl in G2.
      apply negb_false_iff, bool_decide_eq_true in G2. done.
  - split; [|auto].
    destruct (sender r) as [a|]; [|auto]. right; left.
    rewrite bool_decide_eq_true_2 in G1 by eauto. simpl in G1.
    apply negb_false_iff, bool_decide_eq_true in G1. done.
  - split; [auto|].
    destruct (receiver r) as [a|]; [|auto]. right; left.
    rewrite bool_decide_eq_true_2 in G2 by eauto. simpl in G2.
    apply negb_false_iff, bool_decide_eq_true in G2. done.
  - auto.
Qed.

Lemma step_no_takeover v t ev st id r r' :
  rooms st !! id = Some r →
  rooms (step v t ev st).1 !! id = Some r' →
  slot_kept (sender r) (sender r') ∧ slot_kept (receiver r) (receiver r').
Proof.
  intros Hl Hl'.
  assert (Hnone : room_prov None (rooms st) (rooms (step v t ev st).1) →
            slot_kept (sender r) (sender r') ∧ slot_kept (receiver r) (receiver r')).
  { intros Hp. destruct (Hp id r' Hl') as (_ & Hs & Hr). rewrite Hl in Hs, Hr.
    unfold slot_ok, slot_kept in *. simpl in *. intuition congruence. }
  pose proof (step_prov v t ev st) as Hp.
  destruct (joiner v ev) as [w|] eqn:Hj; [|by apply Hnone].
  destruct ev as [ws p| | |]; try done. simpl in Hj, Hl'.
  destruct (parse_frame v p) as [| |m] eqn:Hpf; try done.
  destruct (strict_eq (m_type m) (VString "join")) eqn:Hty; [|done].
  clear Hnone Hp. revert Hl'. unfold onmessage.
  destruct (too_big v p); simpl.
  { rewrite close_rooms, Hl. intros [= <-]. unfold slot_kept. auto. }
  pose proof (enforceRate_rooms v t ws st) as HR.
  destruct (enforceRate v t ws st) as [[ok st1] out]. simpl in HR.
  destruct ok; simpl.
  2:{ rewrite HR, Hl. intros [= <-]. unfold slot_kept. auto. }
  rewrite Hpf. unfold dispatch. rewrite Hty. rewrite <- HR in Hl.
  by apply handleJoin_no_takeover.
Qed.

(** ** The process and the runs of the model *)

Lemma handle_Returns v t ev st st' out :
  handle v t ev st = Returns st' out → step v t ev st = (st', out).
Proof.
  unfold handle. destruct (throws v t ev st); [done|].
  intros [= <- <-]. by destruct (step v t ev st).
Qed.

(** A run of the process that has not exited is a run of the model. *)
Lemma serve_alive v tr st st' out :
  serve v tr st = (Some st', out) → run v tr st = (st', out).
Proof.
  revert st out. induction tr as [|[t ev] tr IH]; intros st out; simpl.
  { by intros [= <- <-]. }
  destruct (handle v t ev st) as [st1 out1|] eqn:Hh; [|done].
  apply handle_Returns in Hh. rewrite Hh.
  destruct (serve v tr st1) as [res out2] eqn:Hs. intros [= -> <-].
  by rewrite (IH _ _ Hs).
Qed.

(** A run of the process that has exited is a run of the model cut at a
    frame whose handler run throws. *)
Lemma serve_exited v tr st out :
  serve v tr st = (None, out) →
  ∃ tr1 t ev tr2, tr = tr1 ++ (t, ev) :: tr2
    ∧ run v tr1 st = ((run v tr1 st).1, out)
    ∧ throws v t ev (run v tr1 st).1 = true.
Proof.
  revert st out. induction tr as [|[t ev] tr IH]; intros st out; simpl; [done|].
  destruct (handle v t ev st) as [st1 out1|] eqn:Hh.
  - pose proof (handle_Returns _ _ _ _ _ _ Hh) as Hstep.
    destruct (serve v tr st1) as [res out2] eqn:Hs. intros [= -> <-].
    destruct (IH _ _ Hs) as (tr1 & t' & ev' & tr2 & -> & Hrun & Hth).
    exists ((t, ev) :: tr1), t', ev', tr2. simpl. rewrite Hstep.
    destruct (run v tr1 st1) as [st2 o2] eqn:Hr. simpl in *.
    injection Hrun as <-. done.
  - intros [= <-]. exists [], t, ev, tr. simpl. split_and!; [done..|].
    unfold handle in Hh. by destruct (throws v t ev st).
Qed.

(** * The claims *)

(** ** Occupancy of the slots *)


(** ** Joins with a wrong token *)

(** C2. A join whose token differs from the secret the room already has is
    answered with an [error] envelope, and the rooms (slots, secrets,
    registry) and the sockets' [roomId]/[role] annotations stay as they
    were. *)
Theorem join_wrong_token_rejected v t ws p st msg r :
  accepts v t ws p st msg →
  is_open st ws →
  m_type msg = VString "join" →
  rooms st !! m_roomId msg = Some r →
  truthy (token r) = true →
  token r ≠ m_token msg →
  ∃ text,
    (onmessage v t ws p st).2 = [WsSend ws (EError text)]
    ∧ rooms (onmessage v t ws p st).1 = rooms st
    ∧ sockets (onmessage v t ws p st).1 = sockets st.
Proof.
  intros Hacc Hopen Hty Hroom Htok Hne.
  rewrite (onmessage_accepts _ _ _ _ _ _ Hacc).
  unfold dispatch. rewrite Hty. simpl. unfold handleJoin.
  destruct (negb (truthy (m_roomId msg)) || negb (truthy (m_token msg))
            || negb (truthy (m_role msg))) eqn:Hreq.
  - eexists. simpl. rewrite send_open by done. done.
  - rewrite (getRoom_known _ _ (rated t ws st) r) by done.
    rewrite Htok. apply strict_eq_false in Hne. rewrite Hne. simpl.
    eexists. rewrite send_open by done. done.
Qed.

Lemma join_wrong_token_rejected_witness :
  ∃ text,
    (onmessage Deno 5 2 (frame (join_msg "r1" "x" "receiver")) (sender_alone Deno)).2
      = [WsSend 2%nat (EError text)]
    ∧ rooms (onmessage Deno 5 2 (frame (join_msg "r1" "x" "receiver"))
               (sender_alone Deno)).1 = rooms (sender_alone Deno)
    ∧ sockets (onmessage Deno 5 2 (frame (join_msg "r1" "x" "receiver"))
                 (sender_alone Deno)).1 = sockets (sender_alone Deno).
Proof.
  apply (join_wrong_token_rejected Deno 5 2 (frame (join_msg "r1" "x" "receiver"))
           (sender_alone Deno) (join_msg "r1" "x" "receiver")
           (Room (Some 1%nat) None (VString "t") 0)).
  - split_and!; reflexivity.
  - reflexivity.
  - reflexivity.
  - vm_compute. reflexivity.
  - reflexivity.
  - discriminate.
Defined.

(** ** The annotations of a socket *)

(** C3, counterexample. Socket 1, bound to (r1, sender) by its first join,
    joins r2 as receiver: the join succeeds and rebinds the socket. *)
Lemma second_join_rebinds :
  binding (sender_alone Node) 1 = (VString "r1", VString "sender")
  ∧ (step Node 1 (EvMessage 1%nat (frame (join_msg "r2" "t" "receiver")))
       (sender_alone Node)).2
    = [WsSend 1%nat (EJoined (VString "r2") (VString "receiver"))]
  ∧ binding (step Node 1 (EvMessage 1%nat (frame (join_msg "r2" "t" "receiver")))
               (sender_alone Node)).1 1
    = (VString "r2", VString "receiver").
Proof. split_and!; by vm_compute. Qed.

(** C3 (amended). The [roomId] and [role] of a socket change in no handler
    run but that of a join arriving on the socket itself: no leave, close,
    error, sweep, relay or message of another socket touches them.  A join
    the server answers with [joined] overwrites them with its own room and
    role, whatever the socket was bound to before. *)
Theorem binding_changes_only_by_own_join v t ev st w :
  (binding (step v t ev st).1 w = binding st w
   ∨ ∃ p m, ev = EvMessage w p ∧ parse_frame v p = Parsed m
       ∧ m_type m = VString "join"
       ∧ binding (step v t ev st).1 w = (m_roomId m, m_role m))
  ∧ (∀ id ro, WsSend w (EJoined id ro) ∈ (step v t ev st).2 →
       binding (step v t ev st).1 w = (id, ro)).
Proof.
  destruct ev as [ws p|ws|ws|]; simpl.
  - unfold onmessage. destruct (too_big v p); simpl.
    { split; [left; apply binding_close|].
      intros id ro [=]%list_elem_of_singleton. }
    pose proof (enforceRate_binding v t ws st w) as HB.
    pose proof (enforceRate_out v t ws st) as HO.
    destruct (enforceRate v t ws st) as [[ok st1] out]. simpl in HB, HO.
    destruct ok; simpl.
    2:{ split; [by left|]. intros id ro [[=] _]%HO. }
    destruct (parse_frame v p) as [| |m] eqn:Hp; simpl.
    + split; [left; by rewrite binding_close|].
      intros id ro [=]%list_elem_of_singleton.
    + split; [by left|]. intros id ro []%elem_of_nil.
    + split.
      * destruct (dispatch_binding v t ws m st1 w) as [->|(-> & Hty & Hb)]; [by left|].
        right. eauto 6.
      * intros id ro [-> Hb]%dispatch_joined. done.
  - split.
    + left. etrans; [apply binding_ext, cleanupSocket_frame|apply binding_mark].
    + intros id ro [c [=]]%cleanupSocket_out.
  - split.
    + left. etrans; [apply binding_ext, cleanupSocket_frame|apply binding_close].
    + intros id ro [c [=]]%cleanupSocket_out.
  - destruct (cleanupStale_frame t st) as (_ & _ & B & F). split; [by left|].
    intros id ro Hin. rewrite Forall_forall in F. by destruct (F _ Hin) as [c [=]].
Qed.

Lemma binding_changes_only_by_own_join_witness :
  binding (step Node 1 (EvMessage 1%nat (frame (join_msg "r2" "t" "receiver")))
             (sender_alone Node)).1 1
  = (VString "r2", VString "receiver").
Proof.
  apply (proj2 (binding_changes_only_by_own_join Node 1
                  (EvMessage 1%nat (frame (join_msg "r2" "t" "receiver")))
                  (sender_alone Node) 1%nat)).
  vm_compute. apply list_elem_of_here.
Defined.

(** ** Joins to a room that is full *)

(** C4, counterexample. With the slots of r1 held by sockets 1 and 2, a join
    of socket 3 as sender with the right token is answered with "sender
    exists", not with "room full". *)
Lemma third_sender_not_told_room_full :
  (onmessage Deno 2 3 (frame (join_msg "r1" "t" "sender")) (paired Deno)).2
    = [WsSend 3%nat (EError "sender exists")]
  ∧ (onmessage Deno 2 3 (frame (join_msg "r1" "t" "sender")) (paired Deno)).2
    ≠ [WsSend 3%nat (EError "room full")].
Proof. split; [by vm_compute|]. vm_compute. discriminate. Qed.

(** C4 (amended). A join with the right token on a third socket, to a room
    whose two slots are held by other sockets, is answered with one [error]
    envelope and leaves rooms and sockets as they were; the message names
    the requested slot for the roles sender and receiver, and says that the
    room is full for every other role. *)
Theorem join_occupied_room_rejected v t ws p st msg r a b :
  accepts v t ws p st msg →
  is_open st ws →
  m_type msg = VString "join" →
  truthy (m_roomId msg) = true →
  truthy (m_token msg) = true →
  truthy (m_role msg) = true →
  rooms st !! m_roomId msg = Some r →
  token r = m_token msg →
  sender r = Some a → receiver r = Some b → a ≠ ws → b ≠ ws →
  (onmessage v t ws p st).2
    = [WsSend ws (EError (full_room_text v (m_role msg)))]
  ∧ rooms (onmessage v t ws p st).1 = rooms st
  ∧ sockets (onmessage v t ws p st).1 = sockets st.
Proof.
  intros Hacc Hopen Hty Hid Htk Hro Hroom Htok Hs Hr Ha Hb.
  rewrite (onmessage_accepts _ _ _ _ _ _ Hacc).
  unfold dispatch. rewrite Hty. simpl. unfold handleJoin.
  rewrite Hid, Htk, Hro. simpl.
  rewrite (getRoom_known _ _ (rated t ws st) r) by done.
  rewrite Htok, Htk. replace (strict_eq (m_token msg) (m_token msg)) with true
    by (symmetry; by apply strict_eq_true).
  simpl. rewrite Hs, Hr.
  assert (Hocc : occupied r = 2%nat) by eauto using occupied_both.
  assert (Hins : <[m_roomId msg := r]> (rooms st) = rooms st) by by apply insert_id.
  rewrite !Hins. unfold full_room_text.
  rewrite (bool_decide_eq_true_2 (is_Some (Some a))) by eauto.
  rewrite (bool_decide_eq_true_2 (is_Some (Some b))) by eauto.
  rewrite (bool_decide_eq_false_2 (Some a = Some ws)) by congruence.
  rewrite (bool_decide_eq_false_2 (Some b = Some ws)) by congruence.
  rewrite Hocc.
  rewrite (bool_decide_eq_true_2 (MAX_PER_ROOM ≤ 2)%nat) by (unfold MAX_PER_ROOM; lia).
  rewrite (bool_decide_eq_false_2 (Some ws ∈ [Some a; Some b]))
    by (rewrite !elem_of_cons, elem_of_nil; intros [?|[?|[]]]; congruence).
  destruct (strict_eq (m_role msg) (VString "sender")); simpl.
  { rewrite send_open by done. done. }
  destruct (strict_eq (m_role msg) (VString "receiver")); simpl.
  { rewrite send_open by done. done. }
  rewrite send_open by done. done.
Qed.

Lemma join_occupied_room_rejected_witness :
  (onmessage Node 2 3 (frame (join_msg "r1" "t" "observer")) (paired Node)).2
    = [WsSend 3%nat (EError "Room full")]
  ∧ rooms (onmessage Node 2 3 (frame (join_msg "r1" "t" "observer")) (paired Node)).1
    = rooms (paired Node)
  ∧ sockets (onmessage Node 2 3 (frame (join_msg "r1" "t" "observer")) (paired Node)).1
    = sockets (paired Node).
Proof.
  apply (join_occupied_room_rejected Node 2 3 (frame (join_msg "r1" "t" "observer"))
           (paired Node) (join_msg "r1" "t" "observer")
           (Room (Some 1%nat) (Some 2%nat) (VString "t") 1) 1%nat 2%nat).
  - split_and!; reflexivity.
  - reflexivity.
  - reflexivity.
  - reflexivity.
  - reflexivity.
  - reflexivity.
  - vm_compute. reflexivity.
  - reflexivity.
  - reflexivity.
  - reflexivity.
  - discriminate.
  - discriminate.
Defined.

(** ** Relay without a connected peer *)

(** C5, counterexample. On the Deno server socket 1, alone in r1 as
    sender, sends an offer: the handler sends nothing, so no [error] reaches
    the socket. *)
Lemma deno_drops_without_error :
  binding (sender_alone Deno) 1 = (VString "r1", VString "sender")
  ∧ rooms (sender_alone Deno) !! VString "r1"
    = Some (Room (Some 1%nat) None (VString "t") 0)
  ∧ (onmessage Deno 1 1 (frame (signal_msg "offer" (VObject 0))) (sender_alone Deno)).2
    = [].
Proof. split_and!; by vm_compute. Qed.

(** C5 (amended). A socket annotated by a join sends [offer], [answer] or
    [ice] while its room exists and the slot of the other role holds no open
    socket.  The Node server answers with the [error] "Peer not connected"
    and changes neither rooms nor sockets; the Deno server sends nothing at
    all and refreshes the room's [touchedAt].  On both servers no envelope
    goes to another socket, and every relay message the socket could have
    sent instead leaves the same state and the same transport calls, so
    nothing of the message is kept for later. *)
Theorem relay_without_peer_dropped v t ws p st msg r :
  accepts v t ws p st msg →
  is_open st ws →
  is_relay_type (m_type msg) = true →
  truthy (ws_roomId (get_socket st ws)) = true →
  truthy (ws_role (get_socket st ws)) = true →
  rooms st !! ws_roomId (get_socket st ws) = Some r →
  (∀ c, peer_slot (ws_role (get_socket st ws)) r = Some c → ¬ is_open st c) →
  match v with
  | Node =>
      (onmessage v t ws p st).2 = [WsSend ws (EError "Peer not connected")]
      ∧ rooms (onmessage v t ws p st).1 = rooms st
  | Deno =>
      (onmessage v t ws p st).2 = []
      ∧ rooms (onmessage v t ws p st).1
        = <[ws_roomId (get_socket st ws) := set_touchedAt t r]> (rooms st)
  end
  ∧ sockets (onmessage v t ws p st).1 = sockets st
  ∧ ∀ p' msg', accepts v t ws p' st msg' → is_relay_type (m_type msg') = true →
      onmessage v t ws p' st = onmessage v t ws p st.
Proof.
  intros Hacc Hopen Hty Hid Hro Hl Hpeer.
  assert (Hd : ∀ m, is_relay_type (m_type m) = true →
            dispatch v t ws m (rated t ws st) = handleRelay v t ws m (rated t ws st)).
  { intros m Hm. unfold dispatch. rewrite Hm.
    destruct (strict_eq (m_type m) (VString "join")) eqn:Hj; [|done].
    apply strict_eq_true in Hj. rewrite Hj in Hm. done. }
  assert (Hns : ∀ st' e, (∀ w, get_socket st' w = get_socket st w) →
            send st' (peer_slot (ws_role (get_socket st ws)) r) e = []).
  { intros st' e Hst'. unfold send.
    destruct (peer_slot _ r) as [c|] eqn:Hc; [|done].
    specialize (Hpeer c eq_refl). unfold is_open in Hpeer. rewrite Hst'.
    by destruct (ws_readyState (get_socket st c)). }
  rewrite (onmessage_accepts _ _ _ _ _ _ Hacc), (Hd _ Hty).
  destruct v; simpl.
  - unfold handleRelayDeno.
    change (get_socket (rated t ws st) ws) with (get_socket st ws).
    change (rooms (rated t ws st)) with (rooms st). rewrite Hl. simpl.
    fold (peer_slot (ws_role (get_socket st ws)) r).
    rewrite touchRoom_sockets. rewrite !Hns.
    2:{ intros w. unfold get_socket. by rewrite touchRoom_sockets. }
    split_and!; [done| |done|].
    { by rewrite (touchRoom_known _ _ _ r). }
    intros p' msg' Hacc' Hty'.
    rewrite (onmessage_accepts _ _ _ _ _ _ Hacc'), (Hd _ Hty'). simpl.
    unfold handleRelayDeno.
    change (get_socket (rated t ws st) ws) with (get_socket st ws).
    change (rooms (rated t ws st)) with (rooms st). rewrite Hl. simpl.
    fold (peer_slot (ws_role (get_socket st ws)) r).
    rewrite !Hns; [done|]. intros w. unfold get_socket. by rewrite touchRoom_sockets.
  - assert (Hn : ∀ m, handleRelayNode t ws m (rated t ws st)
                 = (rated t ws st, [WsSend ws (EError "Peer not connected")])).
    { intros m. unfold handleRelayNode.
      change (get_socket (rated t ws st) ws) with (get_socket st ws).
      change (rooms (rated t ws st)) with (rooms st). rewrite Hid, Hro, Hl. simpl.
      fold (peer_slot (ws_role (get_socket st ws)) r).
      destruct (peer_slot _ r) as [c|] eqn:Hc; [|by rewrite send_open].
      specialize (Hpeer c eq_refl). unfold is_open in Hpeer.
      change (get_socket (rated t ws st) c) with (get_socket st c).
      destruct (ws_readyState (get_socket st c)); [done|by rewrite send_open..]. }
    rewrite Hn. split_and!; [done..|].
    intros p' msg' Hacc' Hty'.
    rewrite (onmessage_accepts _ _ _ _ _ _ Hacc'), (Hd _ Hty'). simpl.
    by rewrite Hn.
Qed.

Lemma relay_without_peer_dropped_witness :
  ((onmessage Node 1 1 (frame (signal_msg "offer" (VObject 0))) (sender_alone Node)).2
     = [WsSend 1%nat (EError "Peer not connected")]
   ∧ rooms (onmessage Node 1 1 (frame (signal_msg "offer" (VObject 0)))
              (sender_alone Node)).1 = rooms (sender_alone Node))
  ∧ sockets (onmessage Node 1 1 (frame (signal_msg "offer" (VObject 0)))
               (sender_alone Node)).1 = sockets (sender_alone Node)
  ∧ ∀ p' msg', accepts Node 1 1 p' (sender_alone Node) msg' →
      is_relay_type (m_type msg') = true →
      onmessage Node 1 1 p' (sender_alone Node)
      = onmessage Node 1 1 (frame (signal_msg "offer" (VObject 0))) (sender_alone Node).
Proof.
  apply (relay_without_peer_dropped Node 1 1 (frame (signal_msg "offer" (VObject 0)))
           (sender_alone Node) (signal_msg "offer" (VObject 0))
           (Room (Some 1%nat) None (VString "t") 0)).
  - split_and!; reflexivity.
  - reflexivity.
  - reflexivity.
  - reflexivity.
  - reflexivity.
  - vm_compute. reflexivity.
  - intros c. vm_compute. discriminate.
Defined.

(** ** Relay before any join *)

(** C6, counterexample. On the Deno server an offer on a socket without
    annotations is answered with "no room", not with "join first". *)
Lemma deno_unjoined_offer_no_room :
  binding initial 1 = (VUndefined, VUndefined)
  ∧ (onmessage Deno 0 1 (frame (signal_msg "offer" (VObject 0))) initial).2
    = [WsSend 1%nat (EError "no room")]
  ∧ (onmessage Deno 0 1 (frame (signal_msg "offer" (VObject 0))) initial).2
    ≠ [WsSend 1%nat (EError "join first")].
Proof. split_and!; [by vm_compute..|]. vm_compute. discriminate. Qed.

(** C6 (amended). An [offer], [answer] or [ice] on a socket that no join
    has annotated is answered with one [error] envelope, "Join first" on the
    Node server and "no room" on the Deno server; nothing goes to any other
    socket, and rooms and sockets stay as they were. *)
Theorem relay_before_join_refused v t ws p st msg :
  reachable v st →
  accepts v t ws p st msg →
  is_open st ws →
  is_relay_type (m_type msg) = true →
  binding st ws = (VUndefined, VUndefined) →
  (onmessage v t ws p st).2 = [WsSend ws (EError (text_unjoined v))]
  ∧ rooms (onmessage v t ws p st).1 = rooms st
  ∧ sockets (onmessage v t ws p st).1 = sockets st.
Proof.
  intros Hreach Hacc Hopen Hty [= Hid Hro].
  rewrite (onmessage_accepts _ _ _ _ _ _ Hacc).
  unfold dispatch. rewrite Hty.
  destruct (strict_eq (m_type msg) (VString "join")) eqn:Hj.
  { apply strict_eq_true in Hj. rewrite Hj in Hty. done. }
  destruct v; simpl.
  - unfold handleRelayDeno.
    change (get_socket (rated t ws st) ws) with (get_socket st ws).
    rewrite Hid. simpl.
    destruct (rooms st !! VUndefined) as [r|] eqn:Hl; simpl.
    { by apply (reachable_ids_truthy _ _ Hreach) in Hl. }
    rewrite send_open by done. done.
  - unfold handleRelayNode.
    change (get_socket (rated t ws st) ws) with (get_socket st ws).
    rewrite Hid. simpl. rewrite send_open by done. done.
Qed.

Lemma relay_before_join_refused_witness :
  (onmessage Node 0 1 (frame (signal_msg "offer" (VObject 0))) initial).2
    = [WsSend 1%nat (EError "Join first")]
  ∧ rooms (onmessage Node 0 1 (frame (signal_msg "offer" (VObject 0))) initial).1
    = rooms initial
  ∧ sockets (onmessage Node 0 1 (frame (signal_msg "offer" (VObject 0))) initial).1
    = sockets initial.
Proof.
  apply (relay_before_join_refused Node 0 1 (frame (signal_msg "offer" (VObject 0)))
           initial (signal_msg "offer" (VObject 0))).
  - apply reachable_initial.
  - split_and!; reflexivity.
  - reflexivity.
  - reflexivity.
  - reflexivity.
Defined.

(** ** Cleanup run twice *)

(** C7. Evaluation at the failing input: after sockets 1 and 2 have
    paired in room r1, socket 1 sends [leave] and then closes.  Each of the
    two runs of [cleanupSocket] sends [peer-left] to socket 2. *)
Theorem cleanup_twice_notifies_twice v :
  (cleanupSocket 2 1 (paired v)).2 = [WsSend 2%nat EPeerLeft]
  ∧ (cleanupSocket 3 1 (cleanupSocket 2 1 (paired v)).1).2 = [WsSend 2%nat EPeerLeft]
  ∧ (run v [(2, EvMessage 1%nat (frame leave_msg)); (3, EvClose 1%nat)] (paired v)).2
    = [WsSend 2%nat EPeerLeft; WsSend 2%nat EPeerLeft].
Proof. destruct v; vm_compute; done. Qed.

(** ** Joining again with the same role *)

(** C8, counterexample. Sockets 1 and 2 are paired in r1 and socket 1 joins
    again as sender: the server sends [ready] to both once more, so the peer
    gets an envelope it would not get without the repeated join. *)
Lemma rejoin_sends_ready_again :
  holds (paired Node) 1 (VString "r1") (VString "sender")
  ∧ (onmessage Node 2 1 (frame (join_msg "r1" "t" "sender")) (paired Node)).2
    = [WsSend 1%nat (EJoined (VString "r1") (VString "sender"));
       WsSend 1%nat EReady; WsSend 2%nat EReady].
Proof.
  split; [|by vm_compute].
  exists (Room (Some 1%nat) (Some 2%nat) (VString "t") 1). by vm_compute.
Qed.

(** C8 (amended). A socket that holds the sender or receiver slot of a room
    joins the same room again with the right token and the same role.  The
    server answers [joined]; the room keeps its slots and secret and only
    its [touchedAt] is refreshed, the socket is bound to the same room and
    role, and no other socket changes.  When both slots are occupied the
    server also sends [ready] once more to both occupants. *)
Theorem rejoin_same_role v t ws p st msg r :
  accepts v t ws p st msg →
  is_open st ws →
  m_type msg = VString "join" →
  truthy (m_roomId msg) = true →
  truthy (m_token msg) = true →
  m_role msg = VString "sender" ∨ m_role msg = VString "receiver" →
  rooms st !! m_roomId msg = Some r →
  token r = m_token msg →
  slot (m_role msg) r = Some ws →
  (onmessage v t ws p st).2
    = WsSend ws (EJoined (m_roomId msg) (m_role msg))
      :: (if bool_decide (is_Some (sender r)) && bool_decide (is_Some (receiver r))
          then send st (sender r) EReady ++ send st (receiver r) EReady
          else [])
  ∧ rooms (onmessage v t ws p st).1 = <[m_roomId msg := set_touchedAt t r]> (rooms st)
  ∧ ∀ w, get_socket (onmessage v t ws p st).1 w
         = if decide (w = ws) then Socket (m_roomId msg) (m_role msg) OPEN
           else get_socket st w.
Proof.
  intros Hacc Hopen Hty Hid Htk Hrole Hl Htok Hslot.
  rewrite (onmessage_accepts _ _ _ _ _ _ Hacc).
  unfold dispatch. rewrite Hty. simpl. unfold handleJoin.
  assert (Hro : truthy (m_role msg) = true) by (by destruct Hrole as [-> | ->]).
  rewrite Hid, Htk, Hro. simpl.
  rewrite (getRoom_known _ _ (rated t ws st) r) by done.
  rewrite Htok, Htk.
  replace (strict_eq (m_token msg) (m_token msg)) with true
    by (symmetry; by apply strict_eq_true).
  simpl.
  set (st3 := put_socket ws _ _).
  assert (Hrs : ∀ m c, ws_readyState (get_socket (touchRoom t (m_roomId msg)
                       (set_rooms m st3)) c)
                     = ws_readyState (get_socket st c)).
  { intros m c. unfold get_socket. rewrite touchRoom_sockets. simpl.
    rewrite lookup_insert. destruct (decide (ws = c)) as [<-|]; [|done].
    simpl. rewrite insert_id by done. done. }
  assert (Hr3 : (if strict_eq (m_role msg) (VString "receiver")
                 then set_receiver (Some ws)
                        (if strict_eq (m_role msg) (VString "sender")
                         then set_sender (Some ws) r else r)
                 else if strict_eq (m_role msg) (VString "sender")
                      then set_sender (Some ws) r else r) = r).
  { unfold slot in Hslot. destruct Hrole as [Hr | Hr]; rewrite Hr in Hslot |- *; simpl in *.
    - by apply set_sender_id.
    - by apply set_receiver_id. }
  assert (Hchk : strict_eq (m_role msg) (VString "sender")
                   && bool_decide (is_Some (sender r))
                   && negb (bool_decide (sender r = Some ws)) = false
               ∧ strict_eq (m_role msg) (VString "receiver")
                   && bool_decide (is_Some (receiver r))
                   && negb (bool_decide (receiver r = Some ws)) = false
               ∧ Some ws ∈ [sender r; receiver r]).
  { unfold slot in Hslot. destruct Hrole as [Hr | Hr]; rewrite Hr in Hslot |- *;
      simpl in *; rewrite Hslot.
    - rewrite (bool_decide_eq_true_2 (Some ws = Some ws)) by done.
      rewrite andb_false_r. split_and!; [done..|]. apply elem_of_cons; by left.
    - rewrite (bool_decide_eq_true_2 (Some ws = Some ws)) by done.
      rewrite andb_false_r. split_and!; [done..|]. apply elem_of_cons; right.
      apply elem_of_cons; by left. }
  destruct Hchk as (-> & -> & Hin).
  rewrite (bool_decide_eq_true_2 _ Hin), andb_false_r. simpl.
  rewrite Hr3.
  rewrite (send_ext st _ (Some ws)) by apply Hrs.
  rewrite (send_ext st _ (sender r)) by apply Hrs.
  rewrite (send_ext st _ (receiver r)) by apply Hrs.
  rewrite send_open by done.
  split_and!; [reflexivity| |].
  - erewrite touchRoom_known by (simpl; apply lookup_insert_eq). simpl.
    by rewrite !insert_insert_eq.
  - intros w. unfold get_socket at 1. rewrite touchRoom_sockets. simpl.
    rewrite lookup_insert. rewrite insert_id by done.
    destruct (decide (ws = w)) as [<-|]; simpl.
    + rewrite decide_True by done. f_equal. apply Hopen.
    + rewrite decide_False by done. done.
Qed.

Lemma rejoin_same_role_witness :
  (onmessage Node 2 1 (frame (join_msg "r1" "t" "sender")) (paired Node)).2
    = [WsSend 1%nat (EJoined (VString "r1") (VString "sender"));
       WsSend 1%nat EReady; WsSend 2%nat EReady]
  ∧ rooms (onmessage Node 2 1 (frame (join_msg "r1" "t" "sender")) (paired Node)).1
    = <[VString "r1" := Room (Some 1%nat) (Some 2%nat) (VString "t") 2]>
        (rooms (paired Node)).
Proof.
  destruct (rejoin_same_role Node 2 1 (frame (join_msg "r1" "t" "sender"))
              (paired Node) (join_msg "r1" "t" "sender")
              (Room (Some 1%nat) (Some 2%nat) (VString "t") 1)) as (Ho & Hr & _).
  - split_and!; reflexivity.
  - reflexivity.
  - reflexivity.
  - reflexivity.
  - reflexivity.
  - by left.
  - vm_compute. reflexivity.
  - reflexivity.
  - reflexivity.
  - split; [exact Ho | exact Hr].
Defined.

(** ** The rate limit *)

(** C9. When at least sixty frames of a socket have passed through the
    rate check within the window that ends at a further frame of the socket,
    the rate check of that frame (the sixty-first) fails: the handler only
    calls [ws.close(1013, ...)], and an open socket is closing afterwards.
    When the frames of a socket with an empty window arrive more than one
    window apart, every rate check along the run passes. *)
Theorem rate_limit_sixty_per_window v ws :
  (∀ st tr T p,
     Forall (λ e, e.1 ≤ T) tr →
     (RATE_LIMIT_MAX ≤ length (recent_frames v ws T tr))%nat →
     too_big v p = false →
     let st60 := (run v tr st).1 in
     (enforceRate v T ws st60).1.1 = false
     ∧ (onmessage v T ws p st60).2
       = [WsClose ws (Some 1013) (Some (text_rate_limit v))]
     ∧ (is_open st60 ws →
        ws_readyState (get_socket (onmessage v T ws p st60).1 ws) = CLOSING))
  ∧ (∀ st tr,
       window st ws = [] →
       spaced (arrivals ws tr) →
       ∀ tr1 t q tr2, tr = tr1 ++ (t, EvMessage ws q) :: tr2 →
         (enforceRate v t ws (run v tr1 st).1).1.1 = true).
Proof.
  split.
  - intros st tr T p Hle Hn Hbig st60.
    assert (Hv : (enforceRate v T ws st60).1.1 = false).
    { rewrite enforceRate_verdict. apply negb_false_iff, bool_decide_eq_true_2.
      unfold next_window. fold (kept T st60 ws). rewrite length_app. simpl.
      subst st60. rewrite (run_kept _ _ _ _ _ Hle). lia. }
    split; [done|]. unfold onmessage. rewrite Hbig.
    revert Hv. unfold enforceRate. case_bool_decide; [|done]. intros _. simpl.
    split; [done|]. intros Hop.
    unfold close, get_socket at 1 2. simpl. fold (get_socket st60 ws).
    rewrite Hop. unfold get_socket, put_socket. simpl. by rewrite lookup_insert_eq.
  - intros st tr Hw Hsp. apply (spaced_checks_pass v ws tr st Hsp).
    intros a _. by rewrite Hw.
Qed.

Lemma rate_limit_sixty_per_window_witness :
  ((enforceRate Deno 5 1 (run Deno burst initial).1).1.1 = false
   ∧ (onmessage Deno 5 1 (frame leave_msg) (run Deno burst initial).1).2
     = [WsClose 1%nat (Some 1013) (Some "rate limit")])
  ∧ (enforceRate Deno 20002 1
       (run Deno [(0, EvMessage 1%nat (frame leave_msg));
                  (10001, EvMessage 1%nat (frame leave_msg))] initial).1).1.1 = true.
Proof.
  destruct (rate_limit_sixty_per_window Deno 1) as [Hburst Hslow]. split.
  - destruct (Hburst initial burst 5 (frame leave_msg)) as (Hv & Ho & _).
    + apply Forall_replicate. simpl. lia.
    + vm_compute. lia.
    + reflexivity.
    + split; [exact Hv | exact Ho].
  - apply (Hslow initial slow eq_refl) with (q := frame leave_msg) (tr2 := []).
    + vm_compute. split; [reflexivity|]. split; [reflexivity|exact I].
    + reflexivity.
Defined.

(** ** Joins with a role that names no slot *)

(** C10. A join to an unknown room with a truthy role string other than
    sender and receiver is answered with [joined]; the room is created with
    the token as its secret and both slots empty, and the socket is bound to
    the room and the role.  As long as the socket sends no further join, it
    is in no slot of that room, so every [ready] it gets comes from a join to
    another room. *)
Theorem join_with_other_role v t ws p st msg s :
  accepts v t ws p st msg →
  is_open st ws →
  m_type msg = VString "join" →
  truthy (m_roomId msg) = true →
  truthy (m_token msg) = true →
  m_role msg = VString s →
  s ≠ "" → s ≠ "sender" → s ≠ "receiver" →
  rooms st !! m_roomId msg = None →
  let st' := (onmessage v t ws p st).1 in
  (onmessage v t ws p st).2 = [WsSend ws (EJoined (m_roomId msg) (m_role msg))]
  ∧ rooms st' = <[m_roomId msg := Room None None (m_token msg) t]> (rooms st)
  ∧ sockets st' = <[ws := Socket (m_roomId msg) (m_role msg) OPEN]> (sockets st)
  ∧ binding st' ws = (m_roomId msg, m_role msg)
  ∧ ∀ tr t' ev, no_join_by v ws (tr ++ [(t', ev)]) →
      let st'' := (run v tr st').1 in
      absent_from (rooms st'') ws (m_roomId msg)
      ∧ (WsSend ws EReady ∈ (step v t' ev st'').2 →
         ∃ w q m, ev = EvMessage w q ∧ parse_frame v q = Parsed m
           ∧ m_type m = VString "join" ∧ m_roomId m ≠ m_roomId msg).
Proof.
  intros Hacc Hopen Hty Hid Htk Hrole Hs0 Hs1 Hs2 Hl st'.
  assert (Hrooms : rooms st' = <[m_roomId msg := Room None None (m_token msg) t]> (rooms st)
          ∧ (onmessage v t ws p st).2 = [WsSend ws (EJoined (m_roomId msg) (m_role msg))]
          ∧ sockets st' = <[ws := Socket (m_roomId msg) (m_role msg) OPEN]> (sockets st)).
  { subst st'. rewrite (onmessage_accepts _ _ _ _ _ _ Hacc).
    unfold dispatch. rewrite Hty. simpl. unfold handleJoin.
    assert (Hro : truthy (m_role msg) = true).
    { rewrite Hrole. simpl. apply negb_true_iff, String.eqb_neq. done. }
    rewrite Hid, Htk, Hro. simpl.
    unfold getRoom. change (rooms (rated t ws st)) with (rooms st). rewrite Hl.
    simpl. rewrite Hrole.
    rewrite (proj2 (strict_eq_false (VString s) (VString "sender"))) by congruence.
    rewrite (proj2 (strict_eq_false (VString s) (VString "receiver"))) by congruence.
    simpl.
    erewrite touchRoom_known by (simpl; apply lookup_insert_eq). simpl.
    rewrite !insert_insert_eq. split_and!; [done| |].
    - rewrite send_open; [done|]. unfold is_open, get_socket. simpl.
      by rewrite lookup_insert_eq.
    - do 2 f_equal. apply Hopen. }
  destruct Hrooms as (Hr & Ho & Hsk).
  assert (Hab : absent_from (rooms st') ws (m_roomId msg)).
  { intros r'. rewrite Hr, lookup_insert_eq. by intros [= <-]. }
  split_and!; [done..| |].
  { unfold binding, get_socket. by rewrite Hsk, lookup_insert_eq. }
  intros tr t' ev Hn st''.
  apply Forall_app in Hn as [Hn Hev]. rewrite Forall_singleton in Hev. simpl in Hev.
  pose proof (run_absent v tr st' ws _ Hn Hab) as Ha. split; [done|].
  intros (w & q & m & r' & -> & Hp & Hj & Hl' & Hc)%step_ready.
  exists w, q, m. split_and!; [done..|]. intros Heq.
  pose proof (room_prov_absent _ _ _ ws (m_roomId msg)
                (step_prov v t' (EvMessage w q) st'') Hev Ha) as Ha'.
  rewrite Heq in Hl'. destruct (Ha' r' Hl'). destruct Hc; done.
Qed.

Lemma join_with_other_role_witness :
  (onmessage Deno 0 1 (frame (join_msg "r1" "t" "observer")) initial).2
    = [WsSend 1%nat (EJoined (VString "r1") (VString "observer"))]
  ∧ rooms (onmessage Deno 0 1 (frame (join_msg "r1" "t" "observer")) initial).1
    = <[VString "r1" := Room None None (VString "t") 0]> (rooms initial)
  ∧ binding (onmessage Deno 0 1 (frame (join_msg "r1" "t" "observer")) initial).1 1
    = (VString "r1", VString "observer").
Proof.
  destruct (join_with_other_role Deno 0 1 (frame (join_msg "r1" "t" "observer"))
              initial (join_msg "r1" "t" "observer") "observer")
    as (Ho & Hr & _ & Hb & _).
  - split_and!; reflexivity.
  - reflexivity.
  - reflexivity.
  - reflexivity.
  - reflexivity.
  - reflexivity.
  - discriminate.
  - discriminate.
  - discriminate.
  - reflexivity.
  - split_and!; [exact Ho | exact Hr | exact Hb].
Defined.

(** * Further properties of the code *)

(** ** The janitor *)

Lemma close_slot_open x acc w :
  is_open (close_slot x acc).1 w → is_open acc.1 w.
Proof.
  destruct x as [c|]; simpl; [|done]. unfold close, is_open.
  destruct (ws_readyState (get_socket acc.1 c)) eqn:Hc; try done.
  unfold get_socket, put_socket. simpl. rewrite lookup_insert.
  destruct (decide (c = w)) as [->|]; [done|]. done.
Qed.

Lemma close_slot_closes c acc : ¬ is_open (close_slot (Some c) acc).1 c.
Proof.
  simpl. unfold close, is_open.
  destruct (ws_readyState (get_socket acc.1 c)) eqn:Hc; try (by rewrite Hc).
  unfold get_socket, put_socket. simpl. by rewrite lookup_insert_eq.
Qed.

Lemma close_slot_other x acc w :
  x ≠ Some w → get_socket (close_slot x acc).1 w = get_socket acc.1 w.
Proof.
  destruct x as [c|]; simpl; [|done]. intros Hne. unfold close.
  destruct (ws_readyState (get_socket acc.1 c)); try done.
  unfold get_socket, put_socket. simpl. rewrite lookup_insert_ne; [done|congruence].
Qed.

Lemma sweep_body_open cutoff acc e w :
  is_open (sweep_body cutoff acc e).1 w → is_open acc.1 w.
Proof.
  unfold sweep_body. case_bool_decide; [|done]. simpl.
  intros Hop. by do 2 apply close_slot_open in Hop.
Qed.

Lemma sweep_fold_open cutoff l acc w :
  is_open (foldl (sweep_body cutoff) acc l).1 w → is_open acc.1 w.
Proof.
  revert acc. induction l as [|e l IH]; intros acc; simpl; [done|].
  intros Hop. by apply IH, sweep_body_open in Hop.
Qed.

Lemma sweep_fold_out cutoff l acc e :
  e ∈ acc.2 → e ∈ (foldl (sweep_body cutoff) acc l).2.
Proof.
  destruct (sweep_fold_frame cutoff l acc) as (_ & _ & _ & l' & -> & _).
  intros. apply elem_of_app. by left.
Qed.

Lemma sweep_fold_deleted cutoff l acc id r :
  (id, r) ∈ l → touchedAt r < cutoff →
  rooms (foldl (sweep_body cutoff) acc l).1 !! id = None.
Proof.
  revert acc. induction l as [|e l IH]; intros acc Hin Hst; [by apply elem_of_nil in Hin|].
  apply elem_of_cons in Hin as [<-|Hin]; [|by apply IH].
  simpl. destruct (rooms (foldl _ _ l).1 !! id) as [r'|] eqn:Hl; [|done].
  apply (sweep_fold_frame cutoff l) in Hl. revert Hl.
  unfold sweep_body. rewrite bool_decide_eq_true_2 by done. simpl.
  by rewrite lookup_delete_eq.
Qed.

Lemma sweep_fold_kept cutoff l acc id :
  (∀ r, (id, r) ∈ l → ¬ touchedAt r < cutoff) →
  rooms (foldl (sweep_body cutoff) acc l).1 !! id = rooms acc.1 !! id.
Proof.
  revert acc. induction l as [|e l IH]; intros acc Hk; simpl; [done|].
  rewrite IH by (intros r Hr; apply Hk, elem_of_cons; by right).
  unfold sweep_body. case_bool_decide as Hs; [|done]. simpl.
  destruct (close_slot_frame (sender e.2) acc) as (R1 & _).
  destruct (close_slot_frame (receiver e.2) (close_slot (sender e.2) acc)) as (R2 & _).
  rewrite R2, R1. apply lookup_delete_ne. intros <-.
  apply (Hk e.2); [|done]. apply elem_of_cons. left. by destruct e.
Qed.

Lemma sweep_fold_closes cutoff l acc id r w :
  (id, r) ∈ l → touchedAt r < cutoff → occupant w r →
  WsClose w None None ∈ (foldl (sweep_body cutoff) acc l).2
  ∧ ¬ is_open (foldl (sweep_body cutoff) acc l).1 w.
Proof.
  revert acc. induction l as [|e l IH]; intros acc Hin Hst Hocc; [by apply elem_of_nil in Hin|].
  apply elem_of_cons in Hin as [<-|Hin]; [|by apply IH].
  simpl. unfold sweep_body at 2 4. rewrite bool_decide_eq_true_2 by done. simpl.
  split.
  - apply sweep_fold_out. simpl. destruct Hocc as [Hs|Hr].
    + destruct (close_slot_frame (receiver r) (close_slot (sender r) acc))
        as (_ & _ & _ & l2 & -> & _).
      apply elem_of_app. left. rewrite Hs. simpl. apply elem_of_app. right.
      apply list_elem_of_here.
    + rewrite Hr. simpl. apply elem_of_app. right. apply list_elem_of_here.
  - intros Hop. apply sweep_fold_open in Hop. simpl in Hop.
    change (is_open (close_slot (receiver r) (close_slot (sender r) acc)).1 w) in Hop.
    destruct Hocc as [Hs|Hr].
    + apply close_slot_open in Hop. rewrite Hs in Hop.
      by apply close_slot_closes in Hop.
    + rewrite Hr in Hop. by apply close_slot_closes in Hop.
Qed.

Lemma sweep_fold_untouched cutoff l acc w :
  (∀ id r, (id, r) ∈ l → touchedAt r < cutoff → ¬ occupant w r) →
  get_socket (foldl (sweep_body cutoff) acc l).1 w = get_socket acc.1 w.
Proof.
  revert acc. induction l as [|e l IH]; intros acc Hno; simpl; [done|].
  rewrite IH by (intros id r Hr; apply (Hno id), elem_of_cons; by right).
  unfold sweep_body. case_bool_decide as Hs; [|done]. simpl.
  assert (Hn : ¬ occupant w e.2).
  { apply (Hno e.1); [|done]. apply elem_of_cons. left. by destruct e. }
  unfold occupant in Hn.
  change (get_socket (close_slot (receiver e.2) (close_slot (sender e.2) acc)).1 w
          = get_socket acc.1 w).
  rewrite !close_slot_other; [done|tauto..].
Qed.

(** X1. A sweep removes exactly the rooms whose last activity is more than
    [ROOM_TTL_MS] before the sweep: every other room stays as it is, and no
    room is added. *)
Theorem sweep_removes_stale_rooms t st id :
  rooms (cleanupStale t st).1 !! id
  = match rooms st !! id with
    | Some r => if bool_decide (stale t r) then None else Some r
    | None => None
    end.
Proof.
  unfold cleanupStale, stale.
  destruct (rooms st !! id) as [r|] eqn:Hl.
  - case_bool_decide as Hs.
    + apply (sweep_fold_deleted _ _ _ id r); [|done]. by apply elem_of_map_to_list.
    + rewrite sweep_fold_kept; [done|].
      intros r' Hr'%elem_of_map_to_list. by simplify_eq.
  - rewrite sweep_fold_kept; [done|].
    intros r' Hr'%elem_of_map_to_list. by simplify_eq.
Qed.

(** X2. A sweep calls [close()] on every occupant of a room it removes, and
    such a socket is not open afterwards.  The sweep sends no envelope, and a
    socket that occupies no removed room keeps its state. *)
Theorem sweep_closes_occupants t st :
  (∀ id r w, rooms st !! id = Some r → stale t r → occupant w r →
     WsClose w None None ∈ (cleanupStale t st).2
     ∧ ¬ is_open (cleanupStale t st).1 w)
  ∧ Forall (λ e, ∃ w, e = WsClose w None None) (cleanupStale t st).2
  ∧ (∀ w, (∀ id r, rooms st !! id = Some r → stale t r → ¬ occupant w r) →
       get_socket (cleanupStale t st).1 w = get_socket st w).
Proof.
  split_and!.
  - intros id r w Hl Hs Hocc. unfold cleanupStale.
    apply (sweep_fold_closes _ _ _ id r w); [|done..]. by apply elem_of_map_to_list.
  - apply cleanupStale_frame.
  - intros w Hno. unfold cleanupStale. rewrite sweep_fold_untouched; [done|].
    intros id r Hin%elem_of_map_to_list. by apply (Hno id).
Qed.

Lemma sweep_closes_occupants_witness :
  WsClose 1%nat None None ∈ (cleanupStale 2000000 (paired Node)).2
  ∧ ¬ is_open (cleanupStale 2000000 (paired Node)).1 1.
Proof.
  apply (proj1 (sweep_closes_occupants 2000000 (paired Node)) (VString "r1")
           (Room (Some 1%nat) (Some 2%nat) (VString "t") 1) 1%nat).
  - vm_compute. reflexivity.
  - vm_compute. reflexivity.
  - left. reflexivity.
Defined.

(** X3. After a sweep has removed the room a socket is bound to, the
    socket's [close] event finds no room: it sends nothing (no [peer-left])
    and leaves the registry as the sweep left it. *)
Theorem close_after_eviction_is_silent v t t' st ws r :
  rooms st !! ws_roomId (get_socket st ws) = Some r →
  stale t r →
  step v t' (EvClose ws) (cleanupStale t st).1
  = (mark CLOSED ws (cleanupStale t st).1, []).
Proof.
  intros Hl Hs. simpl. unfold cleanupSocket.
  destruct (cleanupStale_frame t st) as (_ & _ & B & _).
  pose proof (binding_mark CLOSED ws (cleanupStale t st).1 ws) as Hb.
  rewrite B in Hb. injection Hb as Hid Hro. rewrite Hid, Hro.
  destruct (negb _ || negb _); [done|].
  change (rooms (mark CLOSED ws (cleanupStale t st).1)) with (rooms (cleanupStale t st).1).
  rewrite sweep_removes_stale_rooms, Hl. by rewrite bool_decide_eq_true_2.
Qed.

Lemma close_after_eviction_is_silent_witness :
  step Node 2000001 (EvClose 1%nat) (cleanupStale 2000000 (paired Node)).1
  = (mark CLOSED 1%nat (cleanupStale 2000000 (paired Node)).1, []).
Proof.
  apply (close_after_eviction_is_silent Node 2000000 2000001 (paired Node) 1%nat
           (Room (Some 1%nat) (Some 2%nat) (VString "t") 1)).
  - vm_compute. reflexivity.
  - vm_compute. reflexivity.
Defined.

(** ** Relay *)

(** X4. A relay message of a bound socket whose room exists and whose peer
    slot holds an open socket is forwarded to that peer alone, with the
    message's [type] and [data] as they came; nothing is sent back to the
    sender, the room's [touchedAt] is refreshed and nothing else changes. *)
Theorem relay_delivers v t ws p st msg r c :
  accepts v t ws p st msg →
  is_relay_type (m_type msg) = true →
  truthy (ws_roomId (get_socket st ws)) = true →
  truthy (ws_role (get_socket st ws)) = true →
  rooms st !! ws_roomId (get_socket st ws) = Some r →
  peer_slot (ws_role (get_socket st ws)) r = Some c →
  is_open st c →
  (onmessage v t ws p st).2 = [WsSend c (ERelay (m_type msg) (m_data msg))]
  ∧ rooms (onmessage v t ws p st).1
    = <[ws_roomId (get_socket st ws) := set_touchedAt t r]> (rooms st)
  ∧ sockets (onmessage v t ws p st).1 = sockets st.
Proof.
  intros Hacc Hty Hid Hro Hl Hpeer Hopen.
  rewrite (onmessage_accepts _ _ _ _ _ _ Hacc).
  unfold dispatch. rewrite Hty.
  destruct (strict_eq (m_type msg) (VString "join")) eqn:Hj.
  { apply strict_eq_true in Hj. rewrite Hj in Hty. done. }
  assert (Hs : ∀ m, send (touchRoom t (ws_roomId (get_socket st ws)) (rated t ws st))
                 (Some c) m = [WsSend c m]).
  { intros m. apply send_open. unfold is_open, get_socket.
    by rewrite touchRoom_sockets. }
  destruct v; simpl.
  - unfold handleRelayDeno.
    change (get_socket (rated t ws st) ws) with (get_socket st ws).
    change (rooms (rated t ws st)) with (rooms st). rewrite Hl. simpl.
    fold (peer_slot (ws_role (get_socket st ws)) r). rewrite Hpeer, Hs.
    rewrite touchRoom_sockets. split_and!; [done| |done].
    by rewrite (touchRoom_known _ _ _ r).
  - unfold handleRelayNode.
    change (get_socket (rated t ws st) ws) with (get_socket st ws).
    change (rooms (rated t ws st)) with (rooms st). rewrite Hid, Hro, Hl. simpl.
    fold (peer_slot (ws_role (get_socket st ws)) r). rewrite Hpeer.
    change (get_socket (rated t ws st) c) with (get_socket st c).
    rewrite Hopen. simpl. rewrite Hs, touchRoom_sockets.
    split_and!; [done| |done]. by rewrite (touchRoom_known _ _ _ r).
Qed.

Lemma relay_delivers_witness :
  (onmessage Deno 2 1 (frame (signal_msg "offer" (VObject 7))) (paired Deno)).2
  = [WsSend 2%nat (ERelay (VString "offer") (VObject 7))].
Proof.
  apply (relay_delivers Deno 2 1 (frame (signal_msg "offer" (VObject 7)))
           (paired Deno) (signal_msg "offer" (VObject 7))
           (Room (Some 1%nat) (Some 2%nat) (VString "t") 1) 2%nat).
  - split_and!; reflexivity.
  - reflexivity.
  - reflexivity.
  - reflexivity.
  - vm_compute. reflexivity.
  - reflexivity.
  - reflexivity.
Defined.

(** X5. A relay message of a bound socket whose room is no longer in the
    registry is answered with one [error] envelope, "no room" on the Deno
    server and "Room missing" on the Node server; the room is not created
    again and nothing changes. *)
Theorem relay_room_missing v t ws p st msg :
  accepts v t ws p st msg →
  is_open st ws →
  is_relay_type (m_type msg) = true →
  truthy (ws_roomId (get_socket st ws)) = true →
  truthy (ws_role (get_socket st ws)) = true →
  rooms st !! ws_roomId (get_socket st ws) = None →
  (onmessage v t ws p st).2 = [WsSend ws (EError (text_no_room v))]
  ∧ rooms (onmessage v t ws p st).1 = rooms st
  ∧ sockets (onmessage v t ws p st).1 = sockets st.
Proof.
  intros Hacc Hopen Hty Hid Hro Hl.
  rewrite (onmessage_accepts _ _ _ _ _ _ Hacc).
  unfold dispatch. rewrite Hty.
  destruct (strict_eq (m_type msg) (VString "join")) eqn:Hj.
  { apply strict_eq_true in Hj. rewrite Hj in Hty. done. }
  destruct v; simpl.
  - unfold handleRelayDeno.
    change (get_socket (rated t ws st) ws) with (get_socket st ws).
    change (rooms (rated t ws st)) with (rooms st). rewrite Hl. simpl.
    by rewrite send_open.
  - unfold handleRelayNode.
    change (get_socket (rated t ws st) ws) with (get_socket st ws).
    change (rooms (rated t ws st)) with (rooms st). rewrite Hid, Hro, Hl. simpl.
    by rewrite send_open.
Qed.

Lemma relay_room_missing_witness :
  (onmessage Node 2 1 (frame (signal_msg "ice" VNull)) (sender_left Node)).2
  = [WsSend 1%nat (EError "Room missing")].
Proof.
  apply (relay_room_missing Node 2 1 (frame (signal_msg "ice" VNull))
           (sender_left Node) (signal_msg "ice" VNull)).
  - split_and!; reflexivity.
  - reflexivity.
  - reflexivity.
  - reflexivity.
  - reflexivity.
  - vm_compute. reflexivity.
Defined.

(** ** Admission *)

Lemma adopt_token_slots tok r :
  sender (adopt_token tok r) = sender r ∧ receiver (adopt_token tok r) = receiver r.
Proof. unfold adopt_token. by destruct (negb _). Qed.

Lemma getRoom_room_or_new t id st :
  (getRoom t id st).1 = room_or_new t id st
  ∧ <[id := room_or_new t id st]> (rooms (getRoom t id st).2)
    = <[id := room_or_new t id st]> (rooms st)
  ∧ sockets (getRoom t id st).2 = sockets st.
Proof.
  unfold getRoom, room_or_new. destruct (rooms st !! id); simpl; [done|].
  by rewrite insert_insert_eq.
Qed.

(** The guards of the join branch let a join through when the token fits
    and the requested slot is free or held by the joining socket. *)
Lemma join_guards_pass ws role r :
  role = VString "sender" ∨ role = VString "receiver" →
  (∀ a, slot role r = Some a → a = ws) →
  strict_eq role (VString "sender") && bool_decide (is_Some (sender r))
    && negb (bool_decide (sender r = Some ws)) = false
  ∧ strict_eq role (VString "receiver") && bool_decide (is_Some (receiver r))
    && negb (bool_decide (receiver r = Some ws)) = false
  ∧ bool_decide (MAX_PER_ROOM ≤ occupied r)%nat
    && negb (bool_decide (Some ws ∈ [sender r; receiver r])) = false.
Proof.
  intros Hrole Hslot. unfold slot, occupied in *.
  destruct Hrole as [-> | ->]; simpl in *.
  - destruct (sender r) as [a|] eqn:Hs.
    + rewrite (Hslot a eq_refl).
      rewrite (bool_decide_eq_true_2 (Some ws = Some ws)) by done.
      rewrite (bool_decide_eq_true_2 (Some ws ∈ _)) by (apply elem_of_cons; by left).
      by rewrite !andb_false_r.
    + rewrite (bool_decide_eq_false_2 (is_Some None)) by (by intros [? ?]).
      split_and!; [done..|].
      rewrite bool_decide_eq_false_2; [done|].
      destruct (receiver r); vm_compute; lia.
  - destruct (receiver r) as [a|] eqn:Hr.
    + rewrite (Hslot a eq_refl).
      rewrite (bool_decide_eq_true_2 (Some ws = Some ws)) by done.
      rewrite (bool_decide_eq_true_2 (Some ws ∈ _))
        by (apply elem_of_cons; right; apply elem_of_cons; by left).
      by rewrite !andb_false_r.
    + rewrite (bool_decide_eq_false_2 (is_Some None)) by (by intros [? ?]).
      split_and!; [done..|].
      rewrite bool_decide_eq_false_2; [done|].
      destruct (sender r); vm_compute; lia.
Qed.

(** X6. A join with role sender or receiver is admitted when the room is
    new or its secret equals the token, and the requested slot is free or
    held by the joining socket.  The socket takes the slot and is bound to
    the room and role, a room without secret adopts the token, [touchedAt] is
    refreshed, the socket gets [joined], and when both slots are then
    occupied [ready] goes to the sender and to the receiver, once each. *)
Theorem join_takes_slot v t ws p st msg :
  accepts v t ws p st msg →
  is_open st ws →
  m_type msg = VString "join" →
  truthy (m_roomId msg) = true →
  truthy (m_token msg) = true →
  m_role msg = VString "sender" ∨ m_role msg = VString "receiver" →
  truthy (token (room_or_new t (m_roomId msg) st)) = false
  ∨ token (room_or_new t (m_roomId msg) st) = m_token msg →
  (∀ a, slot (m_role msg) (room_or_new t (m_roomId msg) st) = Some a → a = ws) →
  let r1 := take_slot (m_role msg) ws
              (adopt_token (m_token msg) (room_or_new t (m_roomId msg) st)) in
  (onmessage v t ws p st).2
    = WsSend ws (EJoined (m_roomId msg) (m_role msg))
      :: (if bool_decide (is_Some (sender r1)) && bool_decide (is_Some (receiver r1))
          then send st (sender r1) EReady ++ send st (receiver r1) EReady
          else [])
  ∧ rooms (onmessage v t ws p st).1 = <[m_roomId msg := set_touchedAt t r1]> (rooms st)
  ∧ ∀ w, get_socket (onmessage v t ws p st).1 w
         = if decide (w = ws) then Socket (m_roomId msg) (m_role msg) OPEN
           else get_socket st w.
Proof.
  intros Hacc Hopen Hty Hid Htk Hrole Htok Hslot r1.
  rewrite (onmessage_accepts _ _ _ _ _ _ Hacc).
  unfold dispatch. rewrite Hty. simpl. unfold handleJoin.
  assert (Hro : truthy (m_role msg) = true) by (by destruct Hrole as [-> | ->]).
  rewrite Hid, Htk, Hro. simpl.
  destruct (getRoom_room_or_new t (m_roomId msg) (rated t ws st)) as (Hg1 & Hg2 & Hg3).
  change (room_or_new t (m_roomId msg) (rated t ws st))
    with (room_or_new t (m_roomId msg) st) in *.
  change (rooms (rated t ws st)) with (rooms st) in *.
  change (sockets (rated t ws st)) with (sockets st) in *.
  destruct (getRoom t (m_roomId msg) (rated t ws st)) as [r0' st1]. simpl in *.
  subst r0'. set (r0 := room_or_new t (m_roomId msg) st) in *.
  assert (Hbad : truthy (token r0) && negb (strict_eq (token r0) (m_token msg)) = false).
  { destruct Htok as [-> | ->]; [done|].
    rewrite (proj2 (strict_eq_true _ _)) by done. apply andb_false_r. }
  rewrite Hbad. fold (adopt_token (m_token msg) r0).
  set (r' := adopt_token (m_token msg) r0) in *.
  destruct (adopt_token_slots (m_token msg) r0) as [Hs' Hr'].
  fold r' in Hs', Hr'.
  destruct (join_guards_pass ws (m_role msg) r' Hrole) as (G1 & G2 & G3).
  { intros a. unfold slot. rewrite Hs', Hr'. apply Hslot. }
  rewrite G1, G2, G3. fold (take_slot (m_role msg) ws r'). fold r1.
  set (st3 := put_socket ws _ _).
  assert (Hrs : ∀ m c, ws_readyState (get_socket (touchRoom t (m_roomId msg)
                       (set_rooms m st3)) c)
                     = ws_readyState (get_socket st c)).
  { intros m c. unfold get_socket. rewrite touchRoom_sockets. simpl.
    rewrite lookup_insert. destruct (decide (ws = c)) as [<-|]; simpl;
      unfold get_socket; simpl; rewrite ?Hg3; done. }
  simpl.
  rewrite (send_ext st _ (Some ws)) by apply Hrs.
  rewrite (send_ext st _ (sender r1)) by apply Hrs.
  rewrite (send_ext st _ (receiver r1)) by apply Hrs.
  rewrite send_open by done.
  split_and!; [reflexivity| |].
  - erewrite touchRoom_known by (simpl; apply lookup_insert_eq). simpl.
    rewrite !insert_insert_eq.
    rewrite <- (insert_insert_eq (rooms st1) (m_roomId msg) (set_touchedAt t r1) r0).
    rewrite Hg2. by rewrite insert_insert_eq.
  - intros w. unfold get_socket at 1. rewrite touchRoom_sockets. simpl.
    rewrite Hg3, lookup_insert.
    destruct (decide (ws = w)) as [<-|]; simpl.
    + rewrite decide_True by done. f_equal. unfold get_socket. simpl.
      rewrite Hg3. apply Hopen.
    + rewrite decide_False by done. done.
Qed.

Lemma join_takes_slot_witness :
  (onmessage Deno 1 2 (frame (join_msg "r1" "t" "receiver")) (sender_alone Deno)).2
  = [WsSend 2%nat (EJoined (VString "r1") (VString "receiver"));
     WsSend 1%nat EReady; WsSend 2%nat EReady].
Proof.
  apply (join_takes_slot Deno 1 2 (frame (join_msg "r1" "t" "receiver"))
           (sender_alone Deno) (join_msg "r1" "t" "receiver")).
  - split_and!; reflexivity.
  - reflexivity.
  - reflexivity.
  - reflexivity.
  - reflexivity.
  - by right.
  - right. vm_compute. reflexivity.
  - intros a. vm_compute. discriminate.
Defined.

(** ** One room at a time, and its secret *)

Lemma token_kept_refl (m : gmap value room) : token_kept m m.
Proof. intros id r' Hl. rewrite Hl. by left. Qed.

Lemma touchRoom_lookup t id st id' :
  rooms (touchRoom t id st) !! id'
  = if decide (id = id') then set_touchedAt t <$> rooms st !! id'
    else rooms st !! id'.
Proof.
  unfold touchRoom. destruct (rooms st !! id) as [r|] eqn:Hl; simpl.
  - rewrite lookup_insert. destruct (decide (id = id')) as [<-|]; [|done].
    by rewrite Hl.
  - destruct (decide (id = id')) as [<-|]; [|done]. by rewrite Hl.
Qed.

Lemma handleJoin_shape v t ws msg st :
  (∀ id', id' ≠ m_roomId msg →
     rooms (handleJoin v t ws msg st).1 !! id' = rooms st !! id')
  ∧ token_kept (rooms st) (rooms (handleJoin v t ws msg st).1).
Proof.
  assert (Hfar : ∀ id', id' ≠ m_roomId msg →
            rooms (handleJoin v t ws msg st).1 !! id' = rooms st !! id').
  { intros id' Hne. unfold handleJoin.
    destruct (negb _ || negb _ || negb _); [done|].
    unfold getRoom. destruct (rooms st !! m_roomId msg); simpl;
      repeat (match goal with |- context [if ?b then _ else _] => destruct b end; simpl);
      rewrite ?touchRoom_lookup; simpl;
      rewrite ?decide_False by done; rewrite ?lookup_insert_ne by done; done. }
  split; [done|]. intros id r' Hl.
  destruct (decide (id = m_roomId msg)) as [->|Hne].
  2:{ rewrite Hfar in Hl by done. rewrite Hl. by left. }
  revert Hl. unfold handleJoin.
  destruct (negb _ || negb _ || negb _) eqn:Hreq.
  { simpl. intros ->. by left. }
  apply orb_false_elim in Hreq as [[_ Htk]%orb_false_elim _].
  apply negb_false_iff in Htk.
  unfold getRoom. destruct (rooms st !! m_roomId msg) as [r|] eqn:Hr; simpl.
  - destruct (truthy (token r) && _).
    { simpl. rewrite Hr. intros [= <-]. by left. }
    assert (Hk : ∀ x, token x = token (adopt_token (m_token msg) r) →
              token x = token r ∨ truthy (token r) = false ∧ truthy (token x) = true).
    { intros x ->. unfold adopt_token. destruct (truthy (token r)) eqn:E; simpl; auto. }
    fold (adopt_token (m_token msg) r).
    repeat (match goal with |- context [if ?b then _ else _] => destruct b end; simpl);
      rewrite ?touchRoom_lookup; simpl; rewrite ?decide_True by done;
      rewrite ?lookup_insert_eq; simpl; intros [= <-]; apply Hk; done.
  - repeat (match goal with |- context [if ?b then _ else _] => destruct b end; simpl);
      rewrite ?touchRoom_lookup; simpl; rewrite ?decide_True by done;
      rewrite ?lookup_insert_eq; simpl; intros [= <-]; done.
Qed.

Lemma handleRelay_shape v t ws msg st :
  (∀ id', id' ≠ ws_roomId (get_socket st ws) →
     rooms (handleRelay v t ws msg st).1 !! id' = rooms st !! id')
  ∧ token_kept (rooms st) (rooms (handleRelay v t ws msg st).1).
Proof.
  assert (Ht : ∀ id, token_kept (rooms st) (rooms (touchRoom t id st))).
  { intros id id' r'. rewrite touchRoom_lookup.
    destruct (decide (id = id')); [|intros ->; by left].
    destruct (rooms st !! id') as [r|]; simpl; [|done]. intros [= <-]. by left. }
  destruct v; simpl.
  - unfold handleRelayDeno. destruct (rooms st !! _); simpl;
      [|split; [done|apply token_kept_refl]].
    split; [|apply Ht]. intros id' Hne. rewrite touchRoom_lookup.
    by rewrite decide_False.
  - unfold handleRelayNode.
    destruct (negb _ || negb _); [split; [done|apply token_kept_refl]|].
    destruct (rooms st !! _); [|split; [done|apply token_kept_refl]].
    destruct (if strict_eq _ _ then _ else _); [|split; [done|apply token_kept_refl]].
    destruct (ws_readyState _); simpl; [|split; [done|apply token_kept_refl]..].
    split; [|apply Ht]. intros id' Hne. rewrite touchRoom_lookup.
    by rewrite decide_False.
Qed.

Lemma cleanupSocket_shape t ws st :
  (∀ id', id' ≠ ws_roomId (get_socket st ws) →
     rooms (cleanupSocket t ws st).1 !! id' = rooms st !! id')
  ∧ token_kept (rooms st) (rooms (cleanupSocket t ws st).1).
Proof.
  unfold cleanupSocket.
  destruct (negb _ || negb _); [split; [done|apply token_kept_refl]|].
  destruct (rooms st !! _) as [r|] eqn:Hl; [|split; [done|apply token_kept_refl]].
  set (r1 := if _ && bool_decide (sender r = _) then _ else _).
  set (r2 := if _ && bool_decide (receiver r1 = _) then _ else _).
  assert (Htok : token r2 = token r).
  { subst r1 r2. repeat (destruct (_ && _); simpl); done. }
  split.
  - intros id' Hne.
    destruct (bool_decide _ && bool_decide _); simpl;
      rewrite ?lookup_delete_ne by done; rewrite touchRoom_lookup; simpl;
      rewrite decide_False by done; by rewrite lookup_insert_ne.
  - intros id r'.
    destruct (decide (id = ws_roomId (get_socket st ws))) as [->|Hne].
    + rewrite Hl.
      destruct (bool_decide _ && bool_decide _); simpl.
      * by rewrite lookup_delete_eq.
      * rewrite touchRoom_lookup. simpl. rewrite decide_True by done.
        rewrite lookup_insert_eq. simpl. intros [= <-]. by left.
    + destruct (bool_decide _ && bool_decide _); simpl;
        rewrite ?lookup_delete_ne by done; rewrite touchRoom_lookup; simpl;
        rewrite decide_False by done; rewrite lookup_insert_ne by done;
        intros ->; by left.
Qed.

Lemma dispatch_shape v t ws msg st :
  (∀ id', id' ≠ (if strict_eq (m_type msg) (VString "join") then m_roomId msg
                 else ws_roomId (get_socket st ws)) →
     rooms (dispatch v t ws msg st).1 !! id' = rooms st !! id')
  ∧ token_kept (rooms st) (rooms (dispatch v t ws msg st).1).
Proof.
  unfold dispatch.
  destruct (strict_eq _ _); [apply handleJoin_shape|].
  destruct (is_relay_type _); [apply handleRelay_shape|].
  destruct (strict_eq _ _); [apply cleanupSocket_shape|].
  split; [done|apply token_kept_refl].
Qed.

Lemma onmessage_shape v t ws p st :
  (∀ id', id' ≠ target_room v ws p st →
     rooms (onmessage v t ws p st).1 !! id' = rooms st !! id')
  ∧ token_kept (rooms st) (rooms (onmessage v t ws p st).1).
Proof.
  unfold onmessage, target_room.
  destruct (too_big v p); simpl.
  { rewrite close_rooms. split; [done|apply token_kept_refl]. }
  pose proof (enforceRate_rooms v t ws st) as HR.
  pose proof (enforceRate_binding v t ws st ws) as HB.
  destruct (enforceRate v t ws st) as [[ok st1] out]. simpl in HR, HB.
  injection HB as Hid _.
  destruct ok; simpl; [|rewrite HR; split; [done|apply token_kept_refl]].
  destruct (parse_frame v p) as [| |m]; simpl.
  - rewrite close_rooms, HR. split; [done|apply token_kept_refl].
  - rewrite HR. split; [done|apply token_kept_refl].
  - rewrite <- HR, <- Hid. apply dispatch_shape.
Qed.

Lemma step_token_kept v t ev st :
  token_kept (rooms st) (rooms (step v t ev st).1).
Proof.
  destruct ev as [ws p|ws|ws|]; simpl.
  - apply onmessage_shape.
  - apply (cleanupSocket_shape t ws (mark CLOSED ws st)).
  - rewrite <- (close_rooms ws st) at 1. apply cleanupSocket_shape.
  - intros id r'. rewrite sweep_removes_stale_rooms.
    destruct (rooms st !! id) as [r|]; [|done].
    case_bool_decide; [done|]. intros [= <-]. by left.
Qed.

(** X7. A handler run for a frame that returns changes at most one room:
    the room a join names, or else the room the socket is bound to; every
    other room of the registry is as before.  The one frame whose run does
    not return is the value [null] past the size and rate checks: there the
    uncaught TypeError ends the process. *)
Theorem returning_frame_changes_one_room v t ws p st :
  match handle v t (EvMessage ws p) st with
  | Returns st' _ =>
      ∀ id, id ≠ target_room v ws p st → rooms st' !! id = rooms st !! id
  | Exits =>
      too_big v p = false ∧ (enforceRate v t ws st).1.1 = true
      ∧ parse_frame v p = ParsedNull
  end.
Proof.
  unfold handle. destruct (throws v t (EvMessage ws p) st) eqn:Hth.
  - simpl in Hth. apply andb_true_iff in Hth as [[Hb Hr]%andb_true_iff Hp].
    apply negb_true_iff in Hb. split_and!; [done..|].
    by destruct (parse_frame v p).
  - simpl. intros id Hne. by apply onmessage_shape.
Qed.

Lemma returning_frame_changes_one_room_witness :
  match handle Node 2 (EvMessage 3%nat null_frame) (paired Node) with
  | Returns st' _ =>
      ∀ id, id ≠ target_room Node 3 null_frame (paired Node) →
            rooms st' !! id = rooms (paired Node) !! id
  | Exits =>
      too_big Node null_frame = false
      ∧ (enforceRate Node 2 3 (paired Node)).1.1 = true
      ∧ parse_frame Node null_frame = ParsedNull
  end.
Proof. exact (returning_frame_changes_one_room Node 2 3 null_frame (paired Node)). Defined.

(** X8. Every room of a reachable registry has a truthy id and a truthy
    secret, and no handler run changes the secret of a room that stays in
    the registry: the token of the first join remains the secret until the
    room is deleted. *)
Theorem secret_is_set_once v st :
  reachable v st →
  (∀ id r, rooms st !! id = Some r → truthy id = true ∧ truthy (token r) = true)
  ∧ (∀ t ev id r r', rooms st !! id = Some r →
       rooms (step v t ev st).1 !! id = Some r' → token r' = token r).
Proof.
  intros Hreach.
  assert (Hinv : ∀ id r, rooms st !! id = Some r → truthy (token r) = true).
  { revert st Hreach.
    apply (reachable_ind v (λ st, ∀ id r, rooms st !! id = Some r → truthy (token r) = true)).
    - intros id r. simpl. by rewrite lookup_empty.
    - intros t ev st _ IH id r' Hl. pose proof (step_token_kept v t ev st id r' Hl) as Hk.
      destruct (rooms st !! id) as [r|] eqn:Hr; [|done].
      destruct Hk as [Hk|[_ Hk]]; [|done]. rewrite Hk. by apply (IH id). }
  split.
  - intros id r Hl. split; [by eapply reachable_ids_truthy|by eapply Hinv].
  - intros t ev id r r' Hl Hl'. pose proof (step_token_kept v t ev st id r' Hl') as Hk.
    rewrite Hl in Hk. destruct Hk as [Hk|[Hf _]]; [done|].
    rewrite (Hinv id r Hl) in Hf. done.
Qed.

Lemma secret_is_set_once_witness :
  truthy (VString "r1") = true
  ∧ truthy (token (Room (Some 1%nat) (Some 2%nat) (VString "t") 1)) = true.
Proof.
  apply (proj1 (secret_is_set_once Node (paired Node)
                  (ex_intro _ pair_joins eq_refl))
           (VString "r1") (Room (Some 1%nat) (Some 2%nat) (VString "t") 1)).
  vm_compute. reflexivity.
Defined.

(** X9. On an open socket a join frame is answered in one of two ways: with
    exactly one [error] envelope, and then neither the registry nor any
    socket has changed (no room is created, no secret adopted); or with
    [joined] first, and then the socket is bound to the join's room and
    role. *)
Theorem join_refused_or_joined v t ws p st msg :
  reachable v st →
  accepts v t ws p st msg →
  is_open st ws →
  m_type msg = VString "join" →
  (∃ text, (onmessage v t ws p st).2 = [WsSend ws (EError text)]
     ∧ rooms (onmessage v t ws p st).1 = rooms st
     ∧ sockets (onmessage v t ws p st).1 = sockets st)
  ∨ (head (onmessage v t ws p st).2
       = Some (WsSend ws (EJoined (m_roomId msg) (m_role msg)))
     ∧ binding (onmessage v t ws p st).1 ws = (m_roomId msg, m_role msg)).
Proof.
  intros Hreach Hacc Hopen Hty.
  rewrite (onmessage_accepts _ _ _ _ _ _ Hacc).
  unfold dispatch. rewrite Hty. simpl.
  assert (Hok : ∀ e l, (handleJoin v t ws msg (rated t ws st)).2 = e :: l →
            e = WsSend ws (EJoined (m_roomId msg) (m_role msg)) →
            head (handleJoin v t ws msg (rated t ws st)).2
              = Some (WsSend ws (EJoined (m_roomId msg) (m_role msg)))
            ∧ binding (handleJoin v t ws msg (rated t ws st)).1 ws
              = (m_roomId msg, m_role msg)).
  { intros e l Ho ->. split; [by rewrite Ho|].
    assert (Hin : WsSend ws (EJoined (m_roomId msg) (m_role msg))
                  ∈ (handleJoin v t ws msg (rated t ws st)).2)
      by (rewrite Ho; apply list_elem_of_here).
    apply handleJoin_out in Hin as [[s [=]]|[Hb _]]. done. }
  revert Hok. unfold handleJoin.
  destruct (negb _ || negb _ || negb _) eqn:Hreq.
  { intros _. left. eexists. simpl. rewrite send_open by done. done. }
  unfold getRoom. change (rooms (rated t ws st)) with (rooms st).
  destruct (rooms st !! m_roomId msg) as [r|] eqn:Hl; simpl.
  - destruct (secret_is_set_once v st Hreach) as [Hinv _].
    destruct (Hinv _ _ Hl) as [_ Htok]. rewrite Htok. simpl.
    rewrite (insert_id (rooms st)) by done.
    destruct (negb (strict_eq (token r) (m_token msg))).
    { intros _. left. eexists. simpl. rewrite send_open by done. done. }
    destruct (strict_eq (m_role msg) (VString "sender") && _ && negb _).
    { intros _. left. eexists. simpl. rewrite send_open by done. done. }
    destruct (strict_eq (m_role msg) (VString "receiver") && _ && negb _).
    { intros _. left. eexists. simpl. rewrite send_open by done. done. }
    destruct (bool_decide (MAX_PER_ROOM ≤ _)%nat && negb _).
    { intros _. left. eexists. simpl. rewrite send_open by done. done. }
    simpl. intros Hok. right. rewrite send_open in Hok |- *.
    + by eapply Hok.
    + unfold is_open, get_socket. rewrite touchRoom_sockets. simpl.
      by rewrite lookup_insert_eq.
    + unfold is_open, get_socket. rewrite touchRoom_sockets. simpl.
      by rewrite lookup_insert_eq.
  - rewrite !andb_false_r. simpl. intros Hok. right.
    rewrite send_open in Hok |- *.
    + by eapply Hok.
    + unfold is_open, get_socket. rewrite touchRoom_sockets. simpl.
      by rewrite lookup_insert_eq.
    + unfold is_open, get_socket. rewrite touchRoom_sockets. simpl.
      by rewrite lookup_insert_eq.
Qed.

Lemma join_refused_or_joined_witness :
  (∃ text, (onmessage Deno 2 3 (frame (join_msg "r1" "t" "receiver")) (paired Deno)).2
           = [WsSend 3%nat (EError text)]
     ∧ rooms (onmessage Deno 2 3 (frame (join_msg "r1" "t" "receiver")) (paired Deno)).1
       = rooms (paired Deno)
     ∧ sockets (onmessage Deno 2 3 (frame (join_msg "r1" "t" "receiver")) (paired Deno)).1
       = sockets (paired Deno))
  ∨ (head (onmessage Deno 2 3 (frame (join_msg "r1" "t" "receiver")) (paired Deno)).2
       = Some (WsSend 3%nat (EJoined (VString "r1") (VString "receiver")))
     ∧ binding (onmessage Deno 2 3 (frame (join_msg "r1" "t" "receiver")) (paired Deno)).1 3
       = (VString "r1", VString "receiver")).
Proof.
  apply (join_refused_or_joined Deno 2 3 (frame (join_msg "r1" "t" "receiver"))
           (paired Deno) (join_msg "r1" "t" "receiver")).
  - exists pair_joins. reflexivity.
  - split_and!; reflexivity.
  - reflexivity.
  - reflexivity.
Defined.

(** ** Frames that reach the dispatcher never close a socket *)

Lemma dispatch_readyState v t ws msg st c :
  ws_readyState (get_socket (dispatch v t ws msg st).1 c)
  = ws_readyState (get_socket st c).
Proof.
  assert (Hsame : ∀ st', sockets st' = sockets st →
            ws_readyState (get_socket st' c) = ws_readyState (get_socket st c)).
  { intros st' Hs. unfold get_socket. by rewrite Hs. }
  unfold dispatch.
  destruct (strict_eq _ _).
  { destruct (handleJoin_frame v t ws msg st) as [_ [Hs|Hs]]; [by apply Hsame|].
    unfold get_socket at 1. rewrite Hs, lookup_insert.
    destruct (decide (ws = c)) as [->|]; done. }
  destruct (is_relay_type _); [apply Hsame, handleRelay_frame|].
  destruct (strict_eq _ _); [apply Hsame, cleanupSocket_frame|done].
Qed.

Lemma dispatch_sends v t ws msg st e :
  e ∈ (dispatch v t ws msg st).2 → ∃ c m, e = WsSend c m.
Proof.
  unfold dispatch.
  destruct (strict_eq _ _).
  { intros [[s ->]|[_ [->|(c & r' & -> & _)]]]%handleJoin_out; eauto. }
  destruct (is_relay_type _).
  { intros [c [[s ->]| ->]]%handleRelay_out; eauto. }
  destruct (strict_eq _ _).
  { intros [c ->]%cleanupSocket_out; eauto. }
  simpl. intros (c & _ & ->)%send_elem; eauto.
Qed.

(** X10. A frame that has passed the size check, the rate check and
    [JSON.parse] ends in one of two ways.  If it is the value [null], the
    handler throws before any transport call and the uncaught TypeError ends
    the process.  Otherwise the run returns and closes no connection:
    whatever the type and fields, every transport call is a [send] and every
    socket keeps its [readyState]. *)
Theorem parsed_frame_sends_or_exits v t ws p st :
  too_big v p = false →
  (enforceRate v t ws st).1.1 = true →
  parse_frame v p ≠ ParseError →
  match handle v t (EvMessage ws p) st with
  | Returns st' out =>
      (∃ msg, parse_frame v p = Parsed msg)
      ∧ (∀ e, e ∈ out → ∃ c m, e = WsSend c m)
      ∧ (∀ c, ws_readyState (get_socket st' c) = ws_readyState (get_socket st c))
  | Exits => parse_frame v p = ParsedNull
  end.
Proof.
  intros Hbig Hrate Hparse. unfold handle, throws. rewrite Hbig, Hrate. simpl.
  destruct (parse_frame v p) as [| |msg] eqn:Hp; [done..|].
  assert (Hacc : accepts v t ws p st msg) by done.
  rewrite (onmessage_accepts _ _ _ _ _ _ Hacc). split_and!.
  - by exists msg.
  - intros e. apply dispatch_sends.
  - intros c. by rewrite dispatch_readyState.
Qed.

Lemma parsed_frame_sends_or_exits_witness :
  match handle Node 2 (EvMessage 3%nat (frame (signal_msg "bogus" VNull)))
          (paired Node) with
  | Returns st' out =>
      (∃ msg, parse_frame Node (frame (signal_msg "bogus" VNull)) = Parsed msg)
      ∧ (∀ e, e ∈ out → ∃ c m, e = WsSend c m)
      ∧ (∀ c, ws_readyState (get_socket st' c)
              = ws_readyState (get_socket (paired Node) c))
  | Exits => parse_frame Node (frame (signal_msg "bogus" VNull)) = ParsedNull
  end.
Proof.
  apply (parsed_frame_sends_or_exits Node 2 3 (frame (signal_msg "bogus" VNull))
           (paired Node)).
  - reflexivity.
  - reflexivity.
  - discriminate.
Defined.

(** ** Frames that are refused before the dispatcher *)

(** X11. An oversized frame is refused before the rate check: the handler
    only calls [close(1009, ...)], and the frame is not entered in the
    socket's rate window; rooms and annotations are untouched. *)
Theorem oversized_frame_not_counted v t ws p st :
  too_big v p = true →
  (onmessage v t ws p st).2 = [WsClose ws (Some 1009) (Some (text_too_big v))]
  ∧ rateLimit (onmessage v t ws p st).1 = rateLimit st
  ∧ rooms (onmessage v t ws p st).1 = rooms st
  ∧ (∀ w, binding (onmessage v t ws p st).1 w = binding st w)
  ∧ ¬ is_open (onmessage v t ws p st).1 ws.
Proof.
  intros Hbig. unfold onmessage. rewrite Hbig. simpl.
  rewrite close_rateLimit, close_rooms. split_and!; try done.
  - intros w. apply binding_close.
  - apply (close_slot_closes ws (st, [])).
Qed.

Lemma oversized_frame_not_counted_witness :
  (onmessage Node 2 1 (Payload true 65537 ParseError) (paired Node)).2
  = [WsClose 1%nat (Some 1009) (Some "Message too large")]
  ∧ rateLimit (onmessage Node 2 1 (Payload true 65537 ParseError) (paired Node)).1
    = rateLimit (paired Node).
Proof.
  destruct (oversized_frame_not_counted Node 2 1 (Payload true 65537 ParseError)
              (paired Node)) as (Ho & Hr & _).
  - reflexivity.
  - split; [exact Ho | exact Hr].
Defined.

(** X12. On the Deno server a binary frame is never measured and never
    parsed: whatever its size and content, once the rate check has passed
    the handler only calls [close(1003, "bad json")].  The Node server
    measures and parses a binary frame like a text frame. *)
Theorem binary_frame_handling t ws p st :
  isText p = false →
  ((enforceRate Deno t ws st).1.1 = true →
     (onmessage Deno t ws p st).2 = [WsClose ws (Some 1003) (Some "bad json")]
     ∧ rooms (onmessage Deno t ws p st).1 = rooms st)
  ∧ onmessage Node t ws p st
    = onmessage Node t ws (Payload true (bytes p) (parse p)) st.
Proof.
  intros Hbin. split; [|done].
  intros Hrate. unfold onmessage, too_big, parse_frame. rewrite Hbin. simpl.
  rewrite (enforceRate_ok _ _ _ _ Hrate). simpl. by rewrite close_rooms.
Qed.

Lemma binary_frame_handling_witness :
  (onmessage Deno 2 1 (Payload false 70000 (Parsed leave_msg)) (paired Deno)).2
  = [WsClose 1%nat (Some 1003) (Some "bad json")].
Proof.
  destruct (binary_frame_handling 2 1 (Payload false 70000 (Parsed leave_msg))
              (paired Deno)) as [Hd _].
  - reflexivity.
  - apply Hd. reflexivity.
Defined.

(** ** The rate limiter: threshold and isolation *)

(** X13. The rate check is sharp.  For a socket that starts with an empty
    window, the check of a frame at time [T] passes exactly when fewer than
    sixty earlier frames of the socket went through the rate check at or
    after [T - 10000]: the sixtieth frame of a window still passes, the
    sixty-first is the first to fail. *)
Theorem rate_check_threshold v ws st tr T :
  window st ws = [] →
  Forall (λ e, e.1 ≤ T) tr →
  (enforceRate v T ws (run v tr st).1).1.1
  = bool_decide (length (recent_frames v ws T tr) < RATE_LIMIT_MAX)%nat.
Proof.
  intros Hw Hle. rewrite enforceRate_verdict.
  assert (Hk : length (next_window T (window (run v tr st).1 ws))
               = S (length (recent_frames v ws T tr))).
  { unfold next_window. fold (kept T (run v tr st).1 ws). rewrite length_app.
    rewrite (run_kept _ _ _ _ _ Hle). unfold kept. rewrite Hw. simpl. lia. }
  repeat case_bool_decide; try done; lia.
Qed.

Lemma rate_check_threshold_witness :
  (enforceRate Node 5 1 (run Node (take 59 burst) initial).1).1.1 = true
  ∧ (enforceRate Node 5 1 (run Node burst initial).1).1.1 = false.
Proof.
  split.
  - rewrite (rate_check_threshold Node 1 initial (take 59 burst) 5).
    + vm_compute. reflexivity.
    + reflexivity.
    + unfold burst. rewrite take_replicate. apply Forall_replicate. simpl. lia.
  - rewrite (rate_check_threshold Node 1 initial burst 5).
    + vm_compute. reflexivity.
    + reflexivity.
    + apply Forall_replicate. simpl. lia.
Defined.

(** X14. The rate window of a socket is changed by that socket's own
    frames only: along any run without a rate-checked frame of the socket
    (frames of other sockets, close and error events, sweeps, its own
    oversized frames) the window stays as it is. *)
Theorem rate_window_isolated v ws tr st :
  Forall (λ e, rate_checked v ws e.2 = false) tr →
  window (run v tr st).1 ws = window st ws.
Proof.
  revert st. induction tr as [|[t ev] tr IH]; intros st Hno; [done|].
  apply Forall_cons in Hno as [Hev Hno]. simpl in Hev.
  rewrite run_cons_state, IH by done. rewrite step_window. by rewrite Hev.
Qed.

Lemma rate_window_isolated_witness :
  window (run Deno burst (paired Deno)).1 2 = window (paired Deno) 2.
Proof.
  apply (rate_window_isolated Deno 2 burst (paired Deno)).
  apply Forall_replicate. reflexivity.
Defined.

(** ** Cleanup *)

Lemma cleanupSocket_unbound t ws st :
  truthy (ws_roomId (get_socket st ws)) = false
  ∨ truthy (ws_role (get_socket st ws)) = false
  ∨ rooms st !! ws_roomId (get_socket st ws) = None →
  cleanupSocket t ws st = (st, []).
Proof.
  unfold cleanupSocket. intros [-> | [-> | Hl]]; [done| |].
  - by rewrite orb_true_r.
  - destruct (negb _ || negb _); [done|]. by rewrite Hl.
Qed.

Lemma cleanupSocket_bound t ws st r :
  truthy (ws_roomId (get_socket st ws)) = true →
  truthy (ws_role (get_socket st ws)) = true →
  rooms st !! ws_roomId (get_socket st ws) = Some r →
  let r2 := vacate (ws_role (get_socket st ws)) ws r in
  cleanupSocket t ws st
  = (set_rooms
       (if bool_decide (sender r2 = None) && bool_decide (receiver r2 = None)
        then delete (ws_roomId (get_socket st ws)) (rooms st)
        else <[ws_roomId (get_socket st ws) := set_touchedAt t r2]> (rooms st)) st,
     send st (peer_slot (ws_role (get_socket st ws)) r2) EPeerLeft).
Proof.
  intros Hid Hro Hl r2. unfold cleanupSocket. rewrite Hid, Hro, Hl. simpl.
  fold (vacate (ws_role (get_socket st ws)) ws r). fold r2.
  fold (peer_slot (ws_role (get_socket st ws)) r2).
  erewrite touchRoom_known by (simpl; apply lookup_insert_eq). simpl.
  rewrite insert_insert_eq.
  destruct (bool_decide _ && bool_decide _); simpl.
  - rewrite delete_insert_eq. done.
  - done.
Qed.

Lemma vacate_touched role ws r t :
  vacate role ws (set_touchedAt t (vacate role ws r)) = set_touchedAt t (vacate role ws r).
Proof.
  unfold vacate.
  destruct (strict_eq role (VString "sender")),
    (strict_eq role (VString "receiver")); simpl;
    repeat (case_bool_decide; simpl in * ); simplify_eq/=; try done.
Qed.

Lemma vacate_other role ws r a :
  a ≠ ws →
  (sender r = Some a → sender (vacate role ws r) = Some a)
  ∧ (receiver r = Some a → receiver (vacate role ws r) = Some a).
Proof.
  intros Hne. unfold vacate.
  destruct (strict_eq role (VString "sender")),
    (strict_eq role (VString "receiver")); simpl;
    repeat (case_bool_decide; simpl in * ); split; intros; simplify_eq/=; try done;
    congruence.
Qed.

(** X15. On the registry and the sockets [cleanupSocket] is idempotent: a
    second run for the same socket leaves the rooms as one run at the later
    time leaves them, and no run changes a socket.  (Only the [peer-left]
    notification is repeated.) *)
Theorem cleanup_registry_idempotent t1 t2 ws st :
  rooms (cleanupSocket t2 ws (cleanupSocket t1 ws st).1).1
  = rooms (cleanupSocket t2 ws st).1
  ∧ sockets (cleanupSocket t2 ws (cleanupSocket t1 ws st).1).1 = sockets st.
Proof.
  split.
  2:{ rewrite (proj1 (cleanupSocket_frame _ _ _)). apply cleanupSocket_frame. }
  destruct (truthy (ws_roomId (get_socket st ws))) eqn:Hid.
  2:{ rewrite (cleanupSocket_unbound t1) by auto. done. }
  destruct (truthy (ws_role (get_socket st ws))) eqn:Hro.
  2:{ rewrite (cleanupSocket_unbound t1) by auto. done. }
  destruct (rooms st !! ws_roomId (get_socket st ws)) as [r|] eqn:Hl.
  2:{ rewrite (cleanupSocket_unbound t1) by auto. done. }
  rewrite (cleanupSocket_bound t1 ws st r), (cleanupSocket_bound t2 ws st r) by done.
  simpl. set (r2 := vacate (ws_role (get_socket st ws)) ws r).
  destruct (bool_decide (sender r2 = None) && bool_decide (receiver r2 = None)) eqn:He.
  - rewrite cleanupSocket_unbound; [done|]. right; right. simpl.
    apply lookup_delete_eq.
  - rewrite (cleanupSocket_bound t2 ws _ (set_touchedAt t1 r2)); try done.
    2:{ simpl. apply lookup_insert_eq. }
    simpl. change (get_socket (set_rooms _ st) ws) with (get_socket st ws).
    subst r2. rewrite vacate_touched. simpl. rewrite He.
    by rewrite insert_insert_eq.
Qed.

(** X16. [cleanupSocket] for one socket never removes another socket from a
    slot and never deletes a room that another socket occupies: such a room
    stays in the registry with that occupant in place. *)
Theorem cleanup_keeps_other_occupants t ws st id r a :
  rooms st !! id = Some r →
  a ≠ ws →
  occupant a r →
  ∃ r', rooms (cleanupSocket t ws st).1 !! id = Some r'
        ∧ (sender r = Some a → sender r' = Some a)
        ∧ (receiver r = Some a → receiver r' = Some a).
Proof.
  intros Hl Hne Hocc.
  destruct (decide (id = ws_roomId (get_socket st ws))) as [->|Hid].
  2:{ exists r. by rewrite (proj1 (cleanupSocket_shape t ws st)). }
  destruct (truthy (ws_roomId (get_socket st ws))) eqn:Ht.
  2:{ rewrite cleanupSocket_unbound by auto. eauto. }
  destruct (truthy (ws_role (get_socket st ws))) eqn:Hro.
  2:{ rewrite cleanupSocket_unbound by auto. eauto. }
  rewrite (cleanupSocket_bound t ws st r) by done. simpl.
  destruct (vacate_other (ws_role (get_socket st ws)) ws r a Hne) as [Hs Hr].
  rewrite (proj2 (andb_false_iff _ _)).
  - rewrite lookup_insert_eq. eexists. split; [done|]. simpl. auto.
  - destruct Hocc as [Ho|Ho].
    + left. apply bool_decide_eq_false_2. rewrite (Hs Ho). done.
    + right. apply bool_decide_eq_false_2. rewrite (Hr Ho). done.
Qed.

Lemma cleanup_keeps_other_occupants_witness :
  ∃ r', rooms (cleanupSocket 2 1 (paired Node)).1 !! VString "r1" = Some r'
        ∧ (sender (Room (Some 1%nat) (Some 2%nat) (VString "t") 1) = Some 2%nat →
           sender r' = Some 2%nat)
        ∧ (receiver (Room (Some 1%nat) (Some 2%nat) (VString "t") 1) = Some 2%nat →
           receiver r' = Some 2%nat).
Proof.
  apply (cleanup_keeps_other_occupants 2 1 (paired Node) (VString "r1")
           (Room (Some 1%nat) (Some 2%nat) (VString "t") 1) 2%nat).
  - vm_compute. reflexivity.
  - discriminate.
  - right. reflexivity.
Defined.

(** X17. When a socket that holds the slot of its role in its room leaves
    (a [leave] frame, its [close] or its [error] event run [cleanupSocket]),
    its slot is emptied and the other slot is untouched.  With an occupant in
    the other slot the room stays, with refreshed [touchedAt], and that
    occupant is sent one [peer-left] if it is open; with the other slot empty
    nothing is sent and the room is deleted. *)
Theorem occupant_leaves t ws st r :
  truthy (ws_roomId (get_socket st ws)) = true →
  ws_role (get_socket st ws) = VString "sender"
  ∨ ws_role (get_socket st ws) = VString "receiver" →
  rooms st !! ws_roomId (get_socket st ws) = Some r →
  slot (ws_role (get_socket st ws)) r = Some ws →
  let role := ws_role (get_socket st ws) in
  (cleanupSocket t ws st).2 = send st (peer_slot role r) EPeerLeft
  ∧ slot role (vacate role ws r) = None
  ∧ peer_slot role (vacate role ws r) = peer_slot role r
  ∧ rooms (cleanupSocket t ws st).1
    = (if bool_decide (peer_slot role r = None)
       then delete (ws_roomId (get_socket st ws)) (rooms st)
       else <[ws_roomId (get_socket st ws) := set_touchedAt t (vacate role ws r)]>
              (rooms st)).
Proof.
  intros Hid Hrole Hl Hslot role.
  assert (Hro : truthy role = true) by (subst role; by destruct Hrole as [-> | ->]).
  rewrite (cleanupSocket_bound t ws st r) by done. fold role. simpl.
  assert (Hv : slot role (vacate role ws r) = None
             ∧ peer_slot role (vacate role ws r) = peer_slot role r
             ∧ bool_decide (sender (vacate role ws r) = None)
               && bool_decide (receiver (vacate role ws r) = None)
               = bool_decide (peer_slot role r = None)).
  { unfold slot, peer_slot, vacate in *. fold role in Hslot.
    destruct Hrole as [Hr | Hr]; fold role in Hr; rewrite Hr in *; simpl in *.
    - rewrite Hslot. rewrite (bool_decide_eq_true_2 (Some ws = Some ws)) by done.
      simpl. split_and!; done.
    - rewrite Hslot. rewrite (bool_decide_eq_true_2 (Some ws = Some ws)) by done.
      simpl. split_and!; [done..|]. apply andb_true_r. }
  destruct Hv as (Hv1 & Hv2 & Hv3). rewrite Hv2, Hv3. split_and!; done.
Qed.

Lemma occupant_leaves_witness :
  (cleanupSocket 2 1 (paired Deno)).2 = [WsSend 2%nat EPeerLeft]
  ∧ rooms (cleanupSocket 2 2 (cleanupSocket 2 1 (paired Deno)).1).1 = ∅.
Proof.
  split.
  - apply (occupant_leaves 2 1 (paired Deno) (Room (Some 1%nat) (Some 2%nat) (VString "t") 1)).
    + reflexivity.
    + by left.
    + vm_compute. reflexivity.
    + reflexivity.
  - vm_compute. reflexivity.
Defined.

(** ** Sockets that are not open *)

Lemma send_elem_open st st' w m e :
  (∀ c, ws_readyState (get_socket st' c) = ws_readyState (get_socket st c)) →
  e ∈ send st' w m → ∃ c, e = WsSend c m ∧ is_open st c.
Proof.
  intros Hrs. unfold send. destruct w as [c|]; [|by intros ?%elem_of_nil].
  destruct (ws_readyState (get_socket st' c)) eqn:Hc; [|by intros ?%elem_of_nil..].
  intros ->%list_elem_of_singleton. exists c. split; [done|].
  unfold is_open. by rewrite <- Hrs.
Qed.

Lemma same_sockets_ready st st' :
  sockets st' = sockets st →
  ∀ c, ws_readyState (get_socket st' c) = ws_readyState (get_socket st c).
Proof. intros Hs c. unfold get_socket. by rewrite Hs. Qed.

Lemma cleanupSocket_sends_open t ws st c m :
  WsSend c m ∈ (cleanupSocket t ws st).2 → is_open st c.
Proof.
  unfold cleanupSocket.
  destruct (negb _ || negb _); [by intros ?%elem_of_nil|].
  destruct (rooms st !! _); [|by intros ?%elem_of_nil].
  destruct (bool_decide _ && bool_decide _); simpl;
    intros (c' & [= -> _] & Hop)%(send_elem_open st); done.
Qed.

Lemma handleRelay_sends_open v t ws msg st c m :
  WsSend c m ∈ (handleRelay v t ws msg st).2 → is_open st c.
Proof.
  assert (Ht : ∀ id c, ws_readyState (get_socket (touchRoom t id st) c)
                       = ws_readyState (get_socket st c)).
  { intros id c'. apply same_sockets_ready, touchRoom_sockets. }
  destruct v; simpl.
  - unfold handleRelayDeno. destruct (rooms st !! _); simpl;
      intros (c' & [= -> _] & Hop)%(send_elem_open st); done.
  - unfold handleRelayNode.
    destruct (negb _ || negb _);
      [simpl; intros (c' & [= -> _] & Hop)%(send_elem_open st); done|].
    destruct (rooms st !! _);
      [|simpl; intros (c' & [= -> _] & Hop)%(send_elem_open st); done].
    destruct (if strict_eq _ _ then _ else _);
      [|simpl; intros (c' & [= -> _] & Hop)%(send_elem_open st); done].
    destruct (ws_readyState _); simpl;
      intros (c' & [= -> _] & Hop)%(send_elem_open st); done.
Qed.

Lemma handleJoin_sends_open v t ws msg st c m :
  WsSend c m ∈ (handleJoin v t ws msg st).2 → is_open st c.
Proof.
  unfold handleJoin.
  destruct (negb _ || negb _ || negb _);
    [simpl; intros (c' & [= -> _] & Hop)%(send_elem_open st); done|].
  pose proof (getRoom_sockets t (m_roomId msg) st) as Hs.
  destruct (getRoom t (m_roomId msg) st) as [r st1]. simpl in Hs.
  assert (H1 : ∀ mp c, ws_readyState (get_socket (set_rooms mp st1) c)
                       = ws_readyState (get_socket st c)).
  { intros mp c'. by apply same_sockets_ready. }
  destruct (truthy (token r) && _).
  { simpl. intros (c' & [= -> _] & Hop)%(send_elem_open st); [done|].
    by apply same_sockets_ready. }
  set (r1 := if negb (truthy (token r)) then _ else _).
  destruct (strict_eq (m_role msg) (VString "sender") && _ && negb _);
    [simpl; intros (c' & [= -> _] & Hop)%(send_elem_open st); done|].
  destruct (strict_eq (m_role msg) (VString "receiver") && _ && negb _);
    [simpl; intros (c' & [= -> _] & Hop)%(send_elem_open st); done|].
  destruct (bool_decide (MAX_PER_ROOM ≤ _)%nat && negb _);
    [simpl; intros (c' & [= -> _] & Hop)%(send_elem_open st); done|].
  set (st3 := put_socket ws _ _).
  assert (H5 : ∀ mp c, ws_readyState (get_socket (touchRoom t (m_roomId msg)
                         (set_rooms mp st3)) c)
                       = ws_readyState (get_socket st c)).
  { intros mp c'. unfold get_socket. rewrite touchRoom_sockets. simpl.
    rewrite lookup_insert. destruct (decide (ws = c')) as [<-|]; simpl;
      unfold get_socket; simpl; rewrite ?Hs; done. }
  simpl. intros [He|He]%elem_of_app.
  { apply (send_elem_open st) in He as (c' & [= -> _] & Hop); done. }
  destruct (bool_decide _ && bool_decide _); [|by apply elem_of_nil in He].
  apply elem_of_app in He as [He|He];
    apply (send_elem_open st) in He as (c' & [= -> _] & Hop); done.
Qed.

Lemma dispatch_sends_open v t ws msg st c m :
  WsSend c m ∈ (dispatch v t ws msg st).2 → is_open st c.
Proof.
  unfold dispatch.
  destruct (strict_eq _ _); [apply handleJoin_sends_open|].
  destruct (is_relay_type _); [apply handleRelay_sends_open|].
  destruct (strict_eq _ _); [apply cleanupSocket_sends_open|].
  simpl. intros (c' & [= -> _] & Hop)%(send_elem_open st); done.
Qed.

Lemma close_open ws st c : is_open (close ws st) c → is_open st c.
Proof. apply (close_slot_open (Some ws) (st, [])). Qed.

Lemma mark_closed_open ws st c : is_open (mark CLOSED ws st) c → is_open st c.
Proof.
  unfold is_open, mark, get_socket, put_socket. simpl. rewrite lookup_insert.
  destruct (decide (ws = c)) as [->|]; done.
Qed.

Lemma step_sends_open v t ev st c m :
  WsSend c m ∈ (step v t ev st).2 → is_open st c.
Proof.
  destruct ev as [ws p|ws|ws|]; simpl.
  - unfold onmessage. destruct (too_big v p); simpl.
    { intros [=]%list_elem_of_singleton. }
    pose proof (enforceRate_out v t ws st) as HO.
    pose proof (enforceRate_ok v t ws st) as HK.
    destruct (enforceRate v t ws st) as [[ok st1] out]. simpl in HO, HK.
    destruct ok; simpl; [|by intros [[=] _]%HO].
    injection (HK eq_refl) as -> _.
    destruct (parse_frame v p) as [| |msg]; simpl.
    + intros [=]%list_elem_of_singleton.
    + intros []%elem_of_nil.
    + apply dispatch_sends_open.
  - intros Hin%cleanupSocket_sends_open. by apply mark_closed_open in Hin.
  - intros Hin%cleanupSocket_sends_open. by apply close_open in Hin.
  - destruct (cleanupStale_frame t st) as (_ & _ & _ & F).
    intros Hin. rewrite Forall_forall in F. by destruct (F _ Hin) as [c' [=]].
Qed.

Lemma step_open_mono v t ev st c :
  is_open (step v t ev st).1 c → is_open st c.
Proof.
  destruct ev as [ws p|ws|ws|]; simpl.
  - unfold onmessage. destruct (too_big v p); simpl; [apply close_open|].
    unfold enforceRate. case_bool_decide; simpl.
    { intros Hop%close_open. done. }
    destruct (parse_frame v p) as [| |msg]; simpl.
    + intros Hop%close_open. done.
    + done.
    + unfold is_open. rewrite dispatch_readyState. done.
  - unfold is_open, get_socket. rewrite (proj1 (cleanupSocket_frame _ _ _)).
    apply mark_closed_open.
  - unfold is_open, get_socket. rewrite (proj1 (cleanupSocket_frame _ _ _)).
    apply close_open.
  - apply sweep_fold_open.
Qed.

(** X18. The server sends only on open sockets, and a socket that is not
    open never becomes open again: from a state in which a socket is closing
    or closed (after a rate-limit or size violation, a sweep, or its [close]
    event), no run of the server sends it any envelope. *)
Theorem closed_socket_gets_nothing v tr st c :
  ¬ is_open st c →
  ∀ m, WsSend c m ∉ (run v tr st).2.
Proof.
  revert st. induction tr as [|[t ev] tr IH]; intros st Hcl m; simpl.
  { by intros ?%elem_of_nil. }
  pose proof (step_sends_open v t ev st c m) as Hs.
  pose proof (step_open_mono v t ev st c) as Hm.
  destruct (step v t ev st) as [st1 out1]. simpl in Hs, Hm.
  specialize (IH st1 (λ H, Hcl (Hm H)) m).
  destruct (run v tr st1) as [st2 out2]. simpl in *.
  intros [Hin|Hin]%elem_of_app; [by apply Hcl, Hs|done].
Qed.

Lemma closed_socket_gets_nothing_witness :
  ws_readyState (get_socket
    (run Node (pair_joins ++ [(2, EvMessage 1%nat (Payload true 70000 ParseError))])
       initial).1 1) = CLOSING
  ∧ WsSend 1%nat (ERelay (VString "offer") VNull)
    ∉ (run Node [(3, EvMessage 2%nat (frame (signal_msg "offer" VNull)))]
         (run Node (pair_joins ++ [(2, EvMessage 1%nat (Payload true 70000 ParseError))])
            initial).1).2.
Proof.
  split; [reflexivity|].
  apply (closed_socket_gets_nothing Node).
  vm_compute. discriminate.
Defined.

(** ** Pairing in either order *)

(** X19. Two open sockets join an unknown room with the same token, one as
    sender and one as receiver, in either order.  The first gets [joined]
    and nothing else; the second gets [joined], and then [ready] goes to the
    sender and to the receiver, once each.  In both orders the registry ends
    with the same room: sender and receiver in their slots, the token as
    secret, [touchedAt] at the second join. *)
Theorem pairing_in_either_order v t1 t2 a b p1 p2 st id tok ro1 ro2 :
  (ro1 = "sender" ∧ ro2 = "receiver") ∨ (ro1 = "receiver" ∧ ro2 = "sender") →
  a ≠ b →
  is_open st a → is_open st b →
  truthy id = true → truthy tok = true →
  rooms st !! id = None →
  let m1 := Message (VString "join") id tok (VString ro1) VUndefined in
  let m2 := Message (VString "join") id tok (VString ro2) VUndefined in
  let st1 := (onmessage v t1 a p1 st).1 in
  accepts v t1 a p1 st m1 →
  accepts v t2 b p2 st1 m2 →
  let s := if String.eqb ro1 "sender" then a else b in
  let r := if String.eqb ro1 "sender" then b else a in
  (onmessage v t1 a p1 st).2 = [WsSend a (EJoined id (VString ro1))]
  ∧ (onmessage v t2 b p2 st1).2
    = [WsSend b (EJoined id (VString ro2)); WsSend s EReady; WsSend r EReady]
  ∧ rooms (onmessage v t2 b p2 st1).1
    = <[id := Room (Some s) (Some r) tok t2]> (rooms st).
Proof.
  intros Hroles Hab Ha Hb Hid Htk Hl m1 m2 st1 Hacc1 Hacc2 s r.
  assert (Hnew : room_or_new t1 id st = Room None None VNull t1).
  { unfold room_or_new. by rewrite Hl. }
  destruct (join_takes_slot v t1 a p1 st m1 Hacc1 Ha eq_refl Hid Htk)
    as (Ho1 & Hr1 & Hs1).
  { simpl. destruct Hroles as [[-> _]|[-> _]]; auto. }
  { left. simpl. by rewrite Hnew. }
  { intros c. simpl. rewrite Hnew. unfold slot. simpl.
    by repeat destruct (strict_eq _ _). }
  fold st1 in Hr1, Hs1. simpl in Ho1, Hr1, Hs1. rewrite Hnew in Ho1, Hr1.
  assert (Hb1 : is_open st1 b).
  { unfold is_open. rewrite Hs1, decide_False by done. done. }
  assert (Ha1 : is_open st1 a).
  { unfold is_open. rewrite Hs1, decide_True by done. done. }
  assert (Hsend : ∀ c m, is_open st1 c → send st1 (Some c) m = [WsSend c m]).
  { intros c m Hc. by apply send_open. }
  destruct Hroles as [[-> ->]|[-> ->]]; simpl in *.
  - assert (Hroom : room_or_new t2 id st1 = Room (Some a) None tok t1).
    { unfold room_or_new. rewrite Hr1, lookup_insert_eq. done. }
    destruct (join_takes_slot v t2 b p2 st1 m2 Hacc2 Hb1 eq_refl Hid Htk)
      as (Ho2 & Hr2 & _).
    { simpl. auto. }
    { right. simpl. by rewrite Hroom. }
    { intros c. simpl. rewrite Hroom. unfold slot. simpl. done. }
    simpl in Ho2, Hr2. rewrite Hroom in Ho2, Hr2.
    unfold adopt_token, take_slot in Ho2, Hr2. simpl in Ho2, Hr2.
    rewrite Htk in Ho2, Hr2. simpl in Ho2, Hr2.
    rewrite !Hsend in Ho2 by done.
    split_and!; [done..|]. rewrite Hr2, Hr1. by rewrite insert_insert_eq.
  - assert (Hroom : room_or_new t2 id st1 = Room None (Some a) tok t1).
    { unfold room_or_new. rewrite Hr1, lookup_insert_eq. done. }
    destruct (join_takes_slot v t2 b p2 st1 m2 Hacc2 Hb1 eq_refl Hid Htk)
      as (Ho2 & Hr2 & _).
    { simpl. auto. }
    { right. simpl. by rewrite Hroom. }
    { intros c. simpl. rewrite Hroom. unfold slot. simpl. done. }
    simpl in Ho2, Hr2. rewrite Hroom in Ho2, Hr2.
    unfold adopt_token, take_slot in Ho2, Hr2. simpl in Ho2, Hr2.
    rewrite Htk in Ho2, Hr2. simpl in Ho2, Hr2.
    rewrite !Hsend in Ho2 by done.
    split_and!; [done..|]. rewrite Hr2, Hr1. by rewrite insert_insert_eq.
Qed.

Lemma pairing_in_either_order_witness :
  (onmessage Node 1 6 (frame (join_msg "r9" "k" "sender"))
     (onmessage Node 0 5 (frame (join_msg "r9" "k" "receiver")) initial).1).2
  = [WsSend 6%nat (EJoined (VString "r9") (VString "sender"));
     WsSend 6%nat EReady; WsSend 5%nat EReady].
Proof.
  apply (pairing_in_either_order Node 0 1 5%nat 6%nat
           (frame (join_msg "r9" "k" "receiver")) (frame (join_msg "r9" "k" "sender"))
           initial (VString "r9") (VString "k") "receiver" "sender").
  - right. done.
  - discriminate.
  - reflexivity.
  - reflexivity.
  - reflexivity.
  - reflexivity.
  - reflexivity.
  - split_and!; reflexivity.
  - split_and!; reflexivity.
Defined.
